(** * CTD Document Archive: table of contents, deep links and page state

    A shallow embedding of the client code of the archive browser
    (routes/+page.svelte, lib/types.ts, DocumentViewer.svelte,
    PdfViewer.svelte) and of the metadata inheritance rules of
    METADATA.md, with the properties of the specification stated over it.

    Conventions.
    - A JavaScript string is represented by the octets of its UTF-8
      encoding, held in a [string].
    - A JavaScript [number] is [NaN] or an integer; integers are exact
      in the safe range, which is where page numbers and scroll offsets
      live.
    - An optional field of an object ([title?: string]) is an [option]. *)

From Stdlib Require Import ZArith Ascii DecimalString DecimalPos DecimalN DecimalZ.
From stdpp Require Import gmap strings list fin_maps.
From Stdlib Require Import QArith Qminmax Lqa.

Local Close Scope Q_scope.

Local Open Scope string_scope.
Local Open Scope list_scope.
Local Open Scope stdpp_scope.
Local Set Warnings "-register-all".

(** * Part I: the program *)

(** ** JavaScript values and built-ins used by the code *)

Module Js.

(** The [number]s the code handles: [NaN] or an integer. *)
Inductive number : Type :=
  | NaN
  | Num (z : Z).

Definition MAX_SAFE_INTEGER : Z := 9007199254740991.

(** [a < b] and [a > b]: false as soon as one side is [NaN]. *)
Definition lt (a b : number) : bool :=
  match a, b with
  | Num x, Num y => (x <? y)%Z
  | _, _ => false
  end.

Definition gt (a b : number) : bool := lt b a.

(** [a + b] and [a - b]. *)
Definition add (a b : number) : number :=
  match a, b with
  | Num x, Num y => Num (x + y)
  | _, _ => NaN
  end.

Definition sub (a b : number) : number :=
  match a, b with
  | Num x, Num y => Num (x - y)
  | _, _ => NaN
  end.

(** Template-literal conversion [`${n}`] of a number. *)
Definition number_to_string (n : number) : string :=
  match n with
  | NaN => "NaN"
  | Num z => NilZero.string_of_int (Z.to_int z)
  end.

(** Truthiness of a [string | null | undefined] value. *)
Definition truthy (v : option string) : bool :=
  match v with
  | Some (String _ _) => true
  | _ => false
  end.

(** [a || b] on such values. *)
Definition or_else (a b : option string) : option string :=
  if truthy a then a else b.

(** [s.slice(1)]. *)
Definition slice1 (s : string) : string :=
  match s with
  | EmptyString => EmptyString
  | String _ rest => rest
  end.

(** [s.split(sep)] for a one-character separator: never empty, and
    the split of the empty string is the empty string alone. *)
Fixpoint split (sep : ascii) (s : string) : list string :=
  match s with
  | EmptyString => [EmptyString]
  | String c rest =>
      if Ascii.eqb c sep then EmptyString :: split sep rest
      else match split sep rest with
           | w :: ws => String c w :: ws
           | [] => [String c EmptyString]
           end
  end.

(** [parts.join(sep)]. *)
Fixpoint join (sep : string) (parts : list string) : string :=
  match parts with
  | [] => EmptyString
  | [w] => w
  | w :: rest => w +:+ sep +:+ join sep rest
  end.

(** *** parseInt(s, 10) *)

Definition is_digit (c : ascii) : bool :=
  (48 <=? N_of_ascii c)%N && (N_of_ascii c <=? 57)%N.

Definition digit_value (c : ascii) : Z := Z.of_N (N_of_ascii c) - 48.

(** Leading white space and line terminators, in UTF-8: TAB, LF, VT, FF,
    CR, SP, U+00A0, U+1680, U+2000..U+200A, U+2028, U+2029, U+202F,
    U+205F, U+3000, U+FEFF. *)
Fixpoint trim_start (s : string) : string :=
  match s with
  | String c0 r0 =>
      let b0 := N_of_ascii c0 in
      if ((9 <=? b0) && (b0 <=? 13) || (b0 =? 32))%N then trim_start r0
      else match r0 with
      | String c1 r1 =>
          let b1 := N_of_ascii c1 in
          if ((b0 =? 194) && (b1 =? 160))%N then trim_start r1
          else match r1 with
          | String c2 r2 =>
              let b2 := N_of_ascii c2 in
              if ((b0 =? 225) && (b1 =? 154) && (b2 =? 128)
                  || (b0 =? 226) && (b1 =? 128)
                     && ((128 <=? b2) && (b2 <=? 138)
                         || (b2 =? 168) || (b2 =? 169) || (b2 =? 175))
                  || (b0 =? 226) && (b1 =? 129) && (b2 =? 159)
                  || (b0 =? 227) && (b1 =? 128) && (b2 =? 128)
                  || (b0 =? 239) && (b1 =? 187) && (b2 =? 191))%N
              then trim_start r2
              else s
          | EmptyString => s
          end
      | EmptyString => s
      end
  | EmptyString => s
  end.

(** The longest prefix of decimal digits. *)
Fixpoint take_digits (s : string) : string :=
  match s with
  | String c rest => if is_digit c then String c (take_digits rest) else EmptyString
  | EmptyString => EmptyString
  end.

(** The integer written by a string of digits. *)
Fixpoint digits_value (acc : Z) (s : string) : Z :=
  match s with
  | String c rest => digits_value (10 * acc + digit_value c) rest
  | EmptyString => acc
  end.

(** [parseInt(s, 10)]: white space, an optional sign, then digits; [NaN]
    when no digit follows. *)
Definition parseInt (s : string) : number :=
  let s1 := trim_start s in
  let '(negative, s2) :=
    match s1 with
    | String c rest =>
        if Ascii.eqb c "-" then (true, rest)
        else if Ascii.eqb c "+" then (false, rest)
        else (false, s1)
    | EmptyString => (false, s1)
    end in
  match take_digits s2 with
  | EmptyString => NaN
  | z => Num (if negative then - digits_value 0 z else digits_value 0 z)
  end.

(** *** Character classes used to state facts about strings *)

(** Every character of the string satisfies [P]. *)
Fixpoint all_chars (P : ascii → bool) (s : string) : bool :=
  match s with
  | EmptyString => true
  | String c rest => P c && all_chars P rest
  end.

(** Characters that differ from [sep]. *)
Definition is_not (sep : ascii) (c : ascii) : bool := negb (Ascii.eqb c sep).

(** Number of occurrences of a character in a string. *)
Fixpoint occurrences (c : ascii) (s : string) : nat :=
  match s with
  | EmptyString => 0
  | String x rest => (if Ascii.eqb x c then 1 else 0) + occurrences c rest
  end.

End Js.

Module Uri.

(** *** encodeURIComponent / decodeURIComponent *)

(** Characters left alone by [encodeURIComponent]: letters, digits and
    [- _ . ! ~ * ' ( )]. *)
Definition unreserved (c : ascii) : bool :=
  let b := N_of_ascii c in
  ((65 <=? b) && (b <=? 90) || (97 <=? b) && (b <=? 122)
   || (48 <=? b) && (b <=? 57)
   || (b =? 45) || (b =? 95) || (b =? 46) || (b =? 33) || (b =? 126)
   || (b =? 42) || (b =? 39) || (b =? 40) || (b =? 41))%N.

(** Upper-case hexadecimal digit of a value below 16. *)
Definition hex_digit (n : N) : ascii :=
  if (n <? 10)%N then ascii_of_N (48 + n) else ascii_of_N (55 + n).

(** [%XX] escape of one octet. *)
Definition escape (c : ascii) : string :=
  let b := N_of_ascii c in
  String "%" (String (hex_digit (b / 16)) (String (hex_digit (b mod 16)) EmptyString)).

(** One character as [encodeURIComponent] writes it. *)
Definition encode_char (c : ascii) : string :=
  if unreserved c then String c EmptyString else escape c.

Fixpoint encodeURIComponent (s : string) : string :=
  match s with
  | EmptyString => EmptyString
  | String c rest => encode_char c +:+ encodeURIComponent rest
  end.

(** Value of a hexadecimal digit, either case. *)
Definition hex_value (c : ascii) : option N :=
  let b := N_of_ascii c in
  if ((48 <=? b) && (b <=? 57))%N then Some (b - 48)%N
  else if ((65 <=? b) && (b <=? 70))%N then Some (b - 55)%N
  else if ((97 <=? b) && (b <=? 102))%N then Some (b - 87)%N
  else None.

(** Strict unescaping: every [%] must start a [%XX] escape. *)
Fixpoint unescape_strict (s : string) : option string :=
  match s with
  | EmptyString => Some EmptyString
  | String c rest =>
      if Ascii.eqb c "%" then
        match rest with
        | String h (String l rest') =>
            match hex_value h, hex_value l with
            | Some a, Some b =>
                match unescape_strict rest' with
                | Some r => Some (String (ascii_of_N (16 * a + b)) r)
                | None => None
                end
            | _, _ => None
            end
        | _ => None
        end
      else
        match unescape_strict rest with
        | Some r => Some (String c r)
        | None => None
        end
  end.

Definition between (lo hi : N) (c : ascii) : bool :=
  ((lo <=? N_of_ascii c) && (N_of_ascii c <=? hi))%N.

(** Well-formed UTF-8 (Unicode, table 3-7). *)
Fixpoint valid_utf8 (s : string) : bool :=
  match s with
  | EmptyString => true
  | String c0 r0 =>
      if between 0 127 c0 then valid_utf8 r0
      else match r0 with
      | String c1 r1 =>
          if between 194 223 c0 then between 128 191 c1 && valid_utf8 r1
          else match r1 with
          | String c2 r2 =>
              if between 224 224 c0 then
                between 160 191 c1 && between 128 191 c2 && valid_utf8 r2
              else if between 225 236 c0 || between 238 239 c0 then
                between 128 191 c1 && between 128 191 c2 && valid_utf8 r2
              else if between 237 237 c0 then
                between 128 159 c1 && between 128 191 c2 && valid_utf8 r2
              else match r2 with
              | String c3 r3 =>
                  if between 240 240 c0 then
                    between 144 191 c1 && between 128 191 c2
                    && between 128 191 c3 && valid_utf8 r3
                  else if between 241 243 c0 then
                    between 128 191 c1 && between 128 191 c2
                    && between 128 191 c3 && valid_utf8 r3
                  else if between 244 244 c0 then
                    between 128 143 c1 && between 128 191 c2
                    && between 128 191 c3 && valid_utf8 r3
                  else false
              | EmptyString => false
              end
          | EmptyString => false
          end
      | EmptyString => false
      end
  end.

(** [decodeURIComponent]: [None] stands for the [URIError] thrown on a
    malformed escape or on escapes that do not decode to UTF-8. *)
Definition decodeURIComponent (s : string) : option string :=
  match unescape_strict s with
  | Some r => if valid_utf8 r then Some r else None
  | None => None
  end.

(** *** URLSearchParams *)

(** Lenient percent-decoding of the URL standard: a [%] that does not
    start an escape is kept. *)
Fixpoint percent_decode (s : string) : string :=
  match s with
  | EmptyString => EmptyString
  | String c rest =>
      if Ascii.eqb c "%" then
        match rest with
        | String h (String l rest') =>
            match hex_value h, hex_value l with
            | Some a, Some b => String (ascii_of_N (16 * a + b)) (percent_decode rest')
            | _, _ => String c (percent_decode rest)
            end
        | _ => String c (percent_decode rest)
        end
      else String c (percent_decode rest)
  end.

(** [+] stands for a space in a form-encoded string. *)
Fixpoint plus_to_space (s : string) : string :=
  match s with
  | EmptyString => EmptyString
  | String c rest =>
      String (if Ascii.eqb c "+" then " "%char else c) (plus_to_space rest)
  end.

(** Cut at the first [=]; the value is empty when there is none. *)
Fixpoint cut_at_equals (s : string) : string * string :=
  match s with
  | EmptyString => (EmptyString, EmptyString)
  | String c rest =>
      if Ascii.eqb c "=" then (EmptyString, rest)
      else let '(n, v) := cut_at_equals rest in (String c n, v)
  end.

(** The application/x-www-form-urlencoded parser: empty sequences are
    skipped.  Octets that are not UTF-8 are kept as they are (a browser
    puts U+FFFD there). *)
Definition parse_urlencoded (s : string) : list (string * string) :=
  flat_map
    (fun piece =>
       match piece with
       | EmptyString => []
       | _ =>
           let '(n, v) := cut_at_equals piece in
           [(percent_decode (plus_to_space n), percent_decode (plus_to_space v))]
       end)
    (Js.split "&" s).

(** [new URLSearchParams(init)]: one leading [?] is dropped. *)
Definition URLSearchParams (init : string) : list (string * string) :=
  parse_urlencoded
    match init with
    | String c rest => if Ascii.eqb c "?" then rest else init
    | EmptyString => init
    end.

(** [params.get(key)]: the first value under [key], else [null]. *)
Fixpoint get (key : string) (params : list (string * string)) : option string :=
  match params with
  | [] => None
  | (n, v) :: rest => if String.eqb n key then Some v else get key rest
  end.

(** *** The fragment of the location *)

(** Octets the URL parser escapes in a fragment: C0 controls, space,
    double quote, [<], [>], backquote and everything above [~]. *)
Definition fragment_escaped (c : ascii) : bool :=
  let b := N_of_ascii c in
  ((b <=? 32) || (126 <? b) || (b =? 34) || (b =? 60) || (b =? 62) || (b =? 96))%N.

Fixpoint fragment_encode (s : string) : string :=
  match s with
  | EmptyString => EmptyString
  | String c rest =>
      (if fragment_escaped c then escape c else String c EmptyString)
      +:+ fragment_encode rest
  end.

(** The URL parser first drops trailing C0 controls and spaces of its
    input, then every TAB, LF and CR. *)
Fixpoint strip_trailing (s : string) : string :=
  match s with
  | EmptyString => EmptyString
  | String c rest =>
      match strip_trailing rest with
      | EmptyString => if (N_of_ascii c <=? 32)%N then EmptyString else String c EmptyString
      | rest' => String c rest'
      end
  end.

Fixpoint remove_tab_newline (s : string) : string :=
  match s with
  | EmptyString => EmptyString
  | String c rest =>
      let b := N_of_ascii c in
      if ((b =? 9) || (b =? 10) || (b =? 13))%N then remove_tab_newline rest
      else String c (remove_tab_newline rest)
  end.

(** The fragment of the location after
    [history.replaceState(null, '', '#' + hash)]. *)
Definition replaceState_fragment (hash : string) : string :=
  fragment_encode (remove_tab_newline (strip_trailing hash)).

(** [window.location.hash] once the fragment is [frag]: empty when the
    fragment is empty, else [#] and the fragment. *)
Definition location_hash (frag : string) : string :=
  match frag with
  | EmptyString => EmptyString
  | _ => String "#" frag
  end.

(** Characters the URL parser leaves alone in a fragment. *)
Definition frag_plain (c : ascii) : bool := negb (fragment_escaped c).

(** Characters of a parameter name or value that the form parser
    leaves alone. *)
Definition form_plain (c : ascii) : bool :=
  Js.is_not "&" c && Js.is_not "=" c && Js.is_not "+" c && Js.is_not "%" c
  && Js.is_not "?" c.

End Uri.

(** ** lib/types.ts *)

(** [TocEntry]; the field [$ref] is spelled [ref]. *)
Inductive TocEntry : Type := MkTocEntry {
  name : string;
  type : string;
  path : string;
  children : option (list TocEntry);
  ref : option string;
  url : option string;
  title : option string;
  summary : option string;
  tags : option (list string);
  drug : option string
}.

(** Pre-order listing of the loaded nodes of a tree. *)
Fixpoint flatten (e : TocEntry) : list TocEntry :=
  e :: match children e with
       | Some kids => flat_map flatten kids
       | None => []
       end.

(** The node at a position (child indices from the root). *)
Fixpoint toc_at (pos : list nat) (e : TocEntry) : option TocEntry :=
  match pos with
  | [] => Some e
  | i :: pos' =>
      match children e with
      | Some kids =>
          match kids !! i with
          | Some k => toc_at pos' k
          | None => None
          end
      | None => None
      end
  end.

(** ** routes/+page.svelte *)

Module Page.

(** What [parseHash] returns. *)
Record HashState : Type := MkHashState {
  hs_path : string;
  hs_scroll : option Js.number
}.

(** A call either returns or throws the [URIError] of
    [decodeURIComponent]. *)
Inductive outcome (A : Type) : Type :=
  | Returns (a : A)
  | URIError.
Arguments Returns {A} a.
Arguments URIError {A}.

(** [parseHash], reading [window.location.hash] from its argument. *)
Definition parseHash (location_hash : string) : outcome HashState :=
  let hash := Js.slice1 location_hash in
  match hash with
  | EmptyString => Returns (MkHashState EmptyString None)
  | _ =>
      let parts := Js.split "?" hash in
      let pathPart := default EmptyString (parts !! 0%nat) in
      let queryPart := parts !! 1%nat in
      match Uri.decodeURIComponent pathPart with
      | None => URIError
      | Some p =>
          let scroll :=
            if Js.truthy queryPart then
              let params := Uri.URLSearchParams (default EmptyString queryPart) in
              let scrollParam :=
                Js.or_else (Uri.get "scroll" params) (Uri.get "page" params) in
              if Js.truthy scrollParam
              then Some (Js.parseInt (default EmptyString scrollParam))
              else None
            else None in
          Returns (MkHashState p scroll)
      end
  end.

(** [findEntryByPath]: the [for ... of] loop over [root.children] returns
    at the first child whose subtree yields a node. *)
Fixpoint findEntryByPath (root : TocEntry) (p : string) : option TocEntry :=
  if String.eqb (path root) p then Some root
  else match children root with
       | Some kids =>
           (fix loop (l : list TocEntry) : option TocEntry :=
              match l with
              | [] => None
              | child :: rest =>
                  match findEntryByPath child p with
                  | Some found => Some found
                  | None => loop rest
                  end
              end) kids
       | None => None
       end.

(** [getParentPaths]: the loop runs [i] from 1 to [parts.length - 1] and
    adds [parts.slice(0, i).join('/')] to the set. *)
Definition getParentPaths (filePath : string) : gset string :=
  let parts := Js.split "/" filePath in
  foldl (fun (paths : gset string) (i : nat) =>
           paths ∪ {[ Js.join "/" (take i parts) ]})
        ∅ (seq 1 (length parts - 1)).

(** [updateHash]: the value [window.location.hash] has after the call;
    [selectedEntry] is the page state the function reads. *)
Definition updateHash (selectedEntry : option TocEntry)
    (p : string) (scroll : option Js.number) : string :=
  let hash := Uri.encodeURIComponent p in
  let hash :=
    match scroll with
    | Some n =>
        let param :=
          match selectedEntry with
          | Some e => if String.eqb (type e) "pdf" then "page" else "scroll"
          | None => "scroll"
          end in
        hash +:+ "?" +:+ param +:+ "=" +:+ Js.number_to_string n
    | None => hash
    end in
  Uri.location_hash (Uri.replaceState_fragment hash).

(** State of the page that [handleHashChange] writes. *)
Record PageState : Type := MkPageState {
  toc : option TocEntry;
  selectedEntry : option TocEntry;
  expandedPaths : gset string;
  scrollPosition : option Js.number
}.

(** [handleHashChange]. *)
Definition handleHashChange (location_hash : string) (st : PageState)
    : outcome PageState :=
  match parseHash location_hash with
  | URIError => URIError
  | Returns (MkHashState p scroll) =>
      let st1 := MkPageState (toc st) (selectedEntry st) (expandedPaths st) scroll in
      match p, toc st with
      | String _ _, Some root =>
          match findEntryByPath root p with
          | Some entry =>
              Returns (MkPageState (toc st) (Some entry) (getParentPaths p) scroll)
          | None => Returns st1
          end
      | _, _ => Returns st1
      end
  end.

End Page.

(** ** lib/components/DocumentViewer.svelte *)

Module DocumentViewer.

(** [entry.title || entry.name]. *)
Definition titleOrName (e : TocEntry) : string :=
  match title e with
  | Some (String c t) => String c t
  | _ => name e
  end.

(** The heading of the viewer.  The template renders it inside
    [{#if entry.summary}] only: [None] stands for no heading on screen,
    which is the case whenever the entry has no summary or an empty
    one. *)
Definition displayedTitle (e : TocEntry) : option string :=
  if Js.truthy (summary e) then Some (titleOrName e) else None.

End DocumentViewer.

(** ** lib/components/PdfViewer.svelte *)

Module PdfViewer.

(** The component state the page functions read and write; [pdf] tells
    whether a document proxy is held. *)
Record State : Type := MkState {
  pdf : bool;
  currentPage : Js.number;
  totalPages : Js.number
}.

(** The state a component starts in, from its [initialPage] prop. *)
Definition init (initialPage : Js.number) : State :=
  MkState false initialPage (Js.Num 0).

(** [loadPdf] when the document loads with [numPages] pages: the two
    clamping tests run one after the other. *)
Definition loadPdf (numPages : Js.number) (st : State) : State :=
  let cp := currentPage st in
  let cp := if Js.lt cp (Js.Num 1) then Js.Num 1 else cp in
  let cp := if Js.gt cp numPages then numPages else cp in
  MkState true cp numPages.

(** [goToPage]; [renderPage] and [onPageChange] leave the state alone. *)
Definition goToPage (pageNum : Js.number) (st : State) : State :=
  if negb (pdf st) || Js.lt pageNum (Js.Num 1) || Js.gt pageNum (totalPages st)
  then st
  else MkState (pdf st) pageNum (totalPages st).

Definition prevPage (st : State) : State :=
  goToPage (Js.sub (currentPage st) (Js.Num 1)) st.

Definition nextPage (st : State) : State :=
  goToPage (Js.add (currentPage st) (Js.Num 1)) st.

(** The page invariant: an integer between 1 and the page count. *)
Definition page_in_range (st : State) : Prop :=
  ∃ p n, currentPage st = Js.Num p ∧ totalPages st = Js.Num n ∧ (1 ≤ p ≤ n)%Z.

End PdfViewer.

(** ** METADATA.md and the table-of-contents generator *)

Module Toc.

(** The [_folder] entry of a [metadata.json]. *)
Record FolderOverlay : Type := MkFolderOverlay {
  fo_title : option string;
  fo_summary : option string;
  fo_drug : option string;
  fo_drugName : option string
}.

(** The entry of a [metadata.json] under a file name. *)
Record FileOverlay : Type := MkFileOverlay {
  fi_title : option string;
  fi_summary : option string;
  fi_tags : option (list string)
}.

(** A parsed [metadata.json]: the reserved key and the file-name keys. *)
Record Metadata : Type := MkMetadata {
  _folder : option FolderOverlay;
  files : gmap string FileOverlay
}.

(** The directory snapshot: a file, or a directory with its
    [metadata.json] ([None] when absent or unparsable) and its entries
    in listing order. *)
Inductive FsNode : Type :=
  | FsFile (nm : string)
  | FsDir (nm : string) (meta : option Metadata) (entries : list FsNode).


(** The folder overlay a directory carries, if any. *)
Definition folder_overlay (n : FsNode) : option FolderOverlay :=
  match n with
  | FsDir _ (Some m) _ => _folder m
  | _ => None
  end.

(** The file overlays a directory carries. *)
Definition file_overlays (n : FsNode) : gmap string FileOverlay :=
  match n with
  | FsDir _ (Some m) _ => files m
  | _ => ∅
  end.

(** The [drug] a node's own overlay defines. *)
Definition own_drug (n : FsNode) : option string :=
  match folder_overlay n with
  | Some fo => fo_drug fo
  | None => None
  end.

(** Slash-joined path below a parent ([None] at the archive root). *)
Definition child_path (parent : option string) (nm : string) : string :=
  match parent with
  | Some p => p +:+ "/" +:+ nm
  | None => nm
  end.

(** Where the fragment of a folder lives: its child [toc.json]. *)
Definition ref_of (p : string) : string := p +:+ "/toc.json".

Definition file_entry (kind : string) (nm p : string)
    (ov : option FileOverlay) (inherited : option string) : TocEntry :=
  {| name := nm; type := kind; path := p;
     children := None; ref := None; url := None;
     title := Some (default nm (ov ≫= fi_title));
     summary := ov ≫= fi_summary;
     tags := ov ≫= fi_tags;
     drug := inherited |}.

Definition folder_entry (nm p : string) (fo : option FolderOverlay)
    (d : option string) (kids : option (list TocEntry))
    (r : option string) : TocEntry :=
  {| name := nm; type := "folder"; path := p;
     children := kids; ref := r; url := None;
     title := Some (default nm (fo ≫= fo_title));
     summary := fo ≫= fo_summary;
     tags := None;
     drug := d |}.

(** The merge rule for [drug]: the node's own, else the inherited one. *)
Definition merge_drug (own inherited : option string) : option string :=
  match own with
  | Some d => Some d
  | None => inherited
  end.

(** Modelled from the spec: the tree walker of [generate_toc.py], which
    is not among the sources.  [kind_of] derives the type tag of a file
    from its name; [lazy] is the lazy-loading policy, telling for a
    folder (by path and content) whether its children go to a fragment;
    [inherited] is the [drug] handed down by the caller, [parent] the
    caller's path and [fmeta] the caller's file overlays. *)
Fixpoint walk (kind_of : string → string) (lazy : string → FsNode → bool)
    (inherited : option string) (parent : option string)
    (fmeta : gmap string FileOverlay) (n : FsNode) : TocEntry :=
  match n with
  | FsFile nm =>
      file_entry (kind_of nm) nm (child_path parent nm) (fmeta !! nm) inherited
  | FsDir nm meta entries =>
      let p := child_path parent nm in
      let d := merge_drug (own_drug n) inherited in
      if lazy p n
      then folder_entry nm p (folder_overlay n) d None (Some (ref_of p))
      else folder_entry nm p (folder_overlay n) d
             (Some (map (walk kind_of lazy d (Some p) (file_overlays n)) entries))
             None
  end.

(** Modelled from the spec: the fragments written next to the main tree,
    one per folder the policy cut, each holding what continuing the walk
    into that folder yields. *)
Fixpoint fragments (kind_of : string → string) (lazy : string → FsNode → bool)
    (inherited : option string) (parent : option string)
    (n : FsNode) : list (string * TocEntry) :=
  match n with
  | FsFile _ => []
  | FsDir nm meta entries =>
      let p := child_path parent nm in
      let d := merge_drug (own_drug n) inherited in
      (if lazy p n
       then [(ref_of p,
              folder_entry nm p (folder_overlay n) d
                (Some (map (walk kind_of lazy d (Some p) (file_overlays n)) entries))
                None)]
       else [])
      ++ flat_map (fragments kind_of lazy d (Some p)) entries
  end.

(** Modelled from the spec: the assembler wraps the walk of the archive
    root, where nothing is inherited. *)
Definition assemble (kind_of : string → string) (lazy : string → FsNode → bool)
    (root : FsNode) : TocEntry :=
  walk kind_of lazy None None ∅ root.

(** The fragment store served to the client. *)
Definition store (kind_of : string → string) (lazy : string → FsNode → bool)
    (root : FsNode) : gmap string TocEntry :=
  list_to_map (fragments kind_of lazy None None root).

(** Lazy loading switched off. *)
Definition never (_ : string) (_ : FsNode) : bool := false.

(** Modelled from the spec: fetching and splicing in the fragment of
    every unexpanded [$ref], [fuel] levels deep; the tree component that
    does it is not among the sources. *)
Fixpoint expand (fetch : gmap string TocEntry) (fuel : nat) (e : TocEntry)
    : TocEntry :=
  match fuel with
  | O => e
  | S fuel' =>
      let kids :=
        match children e with
        | Some ks => Some ks
        | None =>
            match ref e with
            | Some r =>
                match fetch !! r with
                | Some frag => children frag
                | None => None
                end
            | None => None
            end
        end in
      {| name := name e; type := type e; path := path e;
         children := option_map (map (expand fetch fuel')) kids;
         ref := ref e; url := url e;
         title := title e; summary := summary e; tags := tags e;
         drug := drug e |}
  end.

(** The fields of a node the specification compares. *)
Definition fields (e : TocEntry)
    : string * string * string * option string * option string
      * option (list string) * option string :=
  (path e, name e, type e, title e, summary e, tags e, drug e).

(** Depth of a snapshot. *)
Fixpoint height (n : FsNode) : nat :=
  match n with
  | FsFile _ => 1
  | FsDir _ _ entries => S (foldr (fun c h => max (height c) h) 0 entries)
  end.

(** The snapshot nodes on the way from the root to a position, root
    first and the node itself last. *)
Fixpoint lineage (pos : list nat) (n : FsNode) : option (list FsNode) :=
  match pos with
  | [] => Some [n]
  | i :: pos' =>
      match n with
      | FsDir _ _ entries =>
          match entries !! i with
          | Some c =>
              match lineage pos' c with
              | Some l => Some (n :: l)
              | None => None
              end
          | None => None
          end
      | FsFile _ => None
      end
  end.

(** The [drug] of the nearest node of a chain that defines one, the
    chain being listed nearest first. *)
Fixpoint nearest_drug (chain : list FsNode) : option string :=
  match chain with
  | [] => None
  | a :: rest =>
      match own_drug a with
      | Some d => Some d
      | None => nearest_drug rest
      end
  end.


(** The [drug] in force below a chain of directories (nearest first)
    when the caller of the topmost hands down [inherited]. *)
Definition handed_down (chain : list FsNode) (inherited : option string)
    : option string :=
  merge_drug (nearest_drug chain) inherited.

(** The file overlays in force for a node: those of its parent. *)
Definition overlays_in_force (ancestors : list FsNode)
    (fmeta : gmap string FileOverlay) : gmap string FileOverlay :=
  match last ancestors with
  | Some parent => file_overlays parent
  | None => fmeta
  end.


End Toc.

(** ** A small archive *)

Module Sample.

Import Toc.

(** Type tag of a file: what follows its last dot. *)
Definition extension (nm : string) : string :=
  List.last (Js.split "." nm) EmptyString.

(** [documents/A] sets [drug] to X; [documents/A/B] has no metadata and
    holds [doc.pdf]; [documents/A/C] overrides [drug] with Y and titles
    [report.pdf]; the overlay of [missing.pdf] names no file. *)
Definition archive : FsNode :=
  FsDir "documents" None
    [ FsDir "A"
        (Some (MkMetadata
                 (Some (MkFolderOverlay None None (Some "X") (Some "Drug X")))
                 ∅))
        [ FsDir "B" None [ FsFile "doc.pdf" ];
          FsDir "C"
            (Some (MkMetadata
                     (Some (MkFolderOverlay (Some "Section C") None (Some "Y") None))
                     (<["report.pdf" := MkFileOverlay (Some "Report") (Some "A report") (Some ["csr"])]>
                        (<["missing.pdf" := MkFileOverlay (Some "Ghost") None None]> ∅))))
            [ FsFile "report.pdf"; FsFile "notes.txt" ] ];
      FsFile "README.md" ].

(** A policy that cuts the tree at [documents/A]. *)
Definition cut_at_A (p : string) (_ : FsNode) : bool := String.eqb p "documents/A".

Definition lazy_tree : TocEntry := assemble extension cut_at_A archive.
Definition lazy_store : gmap string TocEntry := store extension cut_at_A archive.
Definition full_tree : TocEntry := assemble extension never archive.

(** The node emitted for [documents/A/B/doc.pdf]. *)
Definition doc_pdf : TocEntry :=
  {| name := "doc.pdf"; type := "pdf"; path := "documents/A/B/doc.pdf";
     children := None; ref := None; url := None;
     title := Some "doc.pdf"; summary := None; tags := None;
     drug := Some "X" |}.

(** The node [lazy_tree] holds for [documents/A], not expanded. *)
Definition unexpanded_A : TocEntry :=
  {| name := "A"; type := "folder"; path := "documents/A";
     children := None; ref := Some "documents/A/toc.json"; url := None;
     title := Some "A"; summary := None; tags := None; drug := Some "X" |}.


(** The node emitted for [documents/notes.txt]. *)
Definition notes_txt : TocEntry :=
  {| name := "notes.txt"; type := "txt"; path := "documents/notes.txt";
     children := None; ref := None; url := None;
     title := Some "notes.txt"; summary := Some "Lab notes"; tags := None;
     drug := None |}.

End Sample.

(** ** routes/+page.svelte: the handlers around the resolver *)

Module App.

Import Page.

(** The page state together with what the handlers reach outside of it:
    [hash] is [window.location.hash], [classList] the class list of the
    document element, [listening] tells whether [onMount] got as far as
    installing the [hashchange] listener. *)
Record Session : Type := MkSession {
  page : PageState;
  hash : string;
  mobileMenuOpen : bool;
  darkMode : bool;
  classList : gset string;
  listening : bool
}.

(** The state the component starts in, for the location it is opened at
    and the classes the document element carries. *)
Definition initial (location_hash : string) (classes : gset string) : Session :=
  MkSession (MkPageState None None ∅ None) location_hash false false classes false.

(** [updateDarkMode]. *)
Definition updateDarkMode (s : Session) : Session :=
  MkSession (page s) (hash s) (mobileMenuOpen s) (darkMode s)
    (if darkMode s then classList s ∪ {[ "dark" ]} else classList s ∖ {[ "dark" ]})
    (listening s).

(** [toggleDarkMode]. *)
Definition toggleDarkMode (s : Session) : Session :=
  updateDarkMode
    (MkSession (page s) (hash s) (mobileMenuOpen s) (negb (darkMode s))
       (classList s) (listening s)).

(** [selectDocument]: [updateHash] runs after [selectedEntry] has been
    assigned. *)
Definition selectDocument (entry : TocEntry) (s : Session) : Session :=
  MkSession
    (MkPageState (toc (page s)) (Some entry) (expandedPaths (page s)) None)
    (updateHash (Some entry) (path entry) None)
    false (darkMode s) (classList s) (listening s).

(** [handleScrollChange]. *)
Definition handleScrollChange (scroll : Js.number) (s : Session) : Session :=
  MkSession
    (MkPageState (toc (page s)) (selectedEntry (page s)) (expandedPaths (page s))
       (Some scroll))
    match selectedEntry (page s) with
    | Some e => updateHash (Some e) (path e) (Some scroll)
    | None => hash s
    end
    (mobileMenuOpen s) (darkMode s) (classList s) (listening s).

(** [goHome]: the location is replaced by its path name, which carries
    no fragment. *)
Definition goHome (s : Session) : Session :=
  MkSession
    (MkPageState (toc (page s)) None (expandedPaths (page s)) None)
    EmptyString
    (mobileMenuOpen s) (darkMode s) (classList s) (listening s).

(** The browser moves to the fragment [h] and fires [hashchange]: the
    listener, when installed, runs [handleHashChange]; a [URIError]
    thrown by it ends the handler before any assignment. *)
Definition hashChanged (h : string) (s : Session) : Session :=
  let page' :=
    if listening s then
      match handleHashChange h (page s) with
      | Returns p => p
      | URIError => page s
      end
    else page s in
  MkSession page' h (mobileMenuOpen s) (darkMode s) (classList s) (listening s).

(** [onMount], once [/toc.json] has been fetched and parsed to
    [tocJson]; [prefersDark] is what the media query answers.  When
    [handleHashChange] throws, the statements after it do not run. *)
Definition onMount (tocJson : TocEntry) (prefersDark : bool) (s : Session)
    : Session :=
  let loaded :=
    MkPageState (Some tocJson) (selectedEntry (page s)) (expandedPaths (page s))
      (scrollPosition (page s)) in
  match handleHashChange (hash s) loaded with
  | URIError =>
      MkSession loaded (hash s) (mobileMenuOpen s) (darkMode s) (classList s)
        (listening s)
  | Returns p =>
      updateDarkMode
        (MkSession p (hash s) (mobileMenuOpen s) prefersDark (classList s) true)
  end.

(** What the user and the browser can do to a mounted page. *)
Inductive Event : Type :=
  | HashChanged (h : string)
  | Select (entry : TocEntry)
  | Scrolled (scroll : Js.number)
  | Home
  | ToggleDark
  | ToggleMenu
  | CloseMenu.

Definition step (s : Session) (ev : Event) : Session :=
  match ev with
  | HashChanged h => hashChanged h s
  | Select entry => selectDocument entry s
  | Scrolled scroll => handleScrollChange scroll s
  | Home => goHome s
  | ToggleDark => toggleDarkMode s
  | ToggleMenu =>
      MkSession (page s) (hash s) (negb (mobileMenuOpen s)) (darkMode s)
        (classList s) (listening s)
  | CloseMenu =>
      MkSession (page s) (hash s) false (darkMode s) (classList s) (listening s)
  end.

Definition run (s : Session) (evs : list Event) : Session := foldl step s evs.

(** The entries of the tree below [e] are well placed: each child's path
    is its parent's path, a slash and its own name, which has no slash. *)
Fixpoint hierarchical (e : TocEntry) : Prop :=
  match children e with
  | Some kids =>
      (fix each (l : list TocEntry) : Prop :=
         match l with
         | [] => True
         | k :: rest =>
             (path k = path e +:+ "/" +:+ name k
              ∧ Js.all_chars (Js.is_not "/") (name k) = true
              ∧ hierarchical k)
             ∧ each rest
         end) kids
  | None => True
  end.

(** The nodes above a position, root first. *)
Fixpoint ancestors_at (pos : list nat) (e : TocEntry) : list TocEntry :=
  match pos with
  | [] => []
  | i :: pos' =>
      match children e with
      | Some kids =>
          match kids !! i with
          | Some k => e :: ancestors_at pos' k
          | None => []
          end
      | None => []
      end
  end.

(** A selection made in the sidebar picks an entry of the tree. *)
Definition selects_from (root : TocEntry) (ev : Event) : Prop :=
  match ev with
  | Select entry => entry ∈ flatten root
  | _ => True
  end.

(** The class [dark] is on the document element exactly in dark mode. *)
Definition dark_in_sync (s : Session) : Prop :=
  "dark" ∈ classList s ↔ darkMode s = true.

End App.

(** ** lib/components/DocumentViewer.svelte: the script *)

Module DocumentView.

Inductive ViewerType : Type :=
  | pdf_viewer
  | image_viewer
  | audio_viewer
  | video_viewer
  | text_viewer
  | download_viewer.

(** [list.includes(type)]. *)
Definition includes (l : list string) (t : string) : bool :=
  existsb (String.eqb t) l.

(** [getViewerType]. *)
Definition getViewerType (t : string) : ViewerType :=
  if String.eqb t "pdf" then pdf_viewer
  else if includes ["png"; "jpg"; "jpeg"; "gif"; "webp"; "svg"] t then image_viewer
  else if includes ["mp3"; "wav"; "ogg"] t then audio_viewer
  else if includes ["mp4"; "webm"; "mov"] t then video_viewer
  else if includes ["txt"; "md"; "csv"] t then text_viewer
  else download_viewer.

(** Truthiness of a [number | null]: null, 0 and [NaN] are falsy. *)
Definition number_truthy (n : option Js.number) : bool :=
  match n with
  | Some (Js.Num z) => negb (z =? 0)%Z
  | _ => false
  end.

(** [fileUrl]: null without an entry. *)
Definition fileUrl (entry : option TocEntry) (scrollPosition : option Js.number)
    : option string :=
  match entry with
  | None => None
  | Some e =>
      let url := "/" +:+ path e in
      Some
        match getViewerType (type e), scrollPosition with
        | pdf_viewer, Some n =>
            if number_truthy scrollPosition
            then url +:+ "#page=" +:+ Js.number_to_string n
            else url
        | _, _ => url
        end
  end.

(** What the template puts on screen. *)
Inductive Rendering : Type :=
  | Landing
  | Frame (src : string)
  | Image (src : string)
  | Audio (src : string)
  | Video (src : string)
  | DownloadLink (href : string).

(** The template: a frame, an image, an audio or a video element for
    the viewer types that have a branch, the download fallback for the
    others. *)
Definition render (entry : option TocEntry) (scrollPosition : option Js.number)
    : Rendering :=
  match entry, fileUrl entry scrollPosition with
  | Some e, Some u =>
      match getViewerType (type e) with
      | pdf_viewer => Frame u
      | image_viewer => Image u
      | audio_viewer => Audio u
      | video_viewer => Video u
      | text_viewer | download_viewer => DownloadLink u
      end
  | _, _ => Landing
  end.

End DocumentView.

(** ** lib/components/PdfViewer.svelte: zoom and keyboard *)

Module PdfControls.

Import PdfViewer.

(** The page state and the zoom factor; the factor moves in steps of a
    quarter, which a rational holds as the code's number does. *)
Record Controls : Type := MkControls {
  nav : State;
  scale : Q
}.

(** A component before its document loads: [scale] starts at 1.5. *)
Definition start (initialPage : Js.number) : Controls :=
  MkControls (init initialPage) (3 # 2).

(** [zoomIn]: [Math.min(scale + 0.25, 3)]. *)
Definition zoomIn (c : Controls) : Controls :=
  MkControls (nav c) (Qmin (scale c + (1 # 4)) 3)%Q.

(** [zoomOut]: [Math.max(scale - 0.25, 0.5)]. *)
Definition zoomOut (c : Controls) : Controls :=
  MkControls (nav c) (Qmax (scale c - (1 # 4)) (1 # 2))%Q.

(** [handleKeydown], by the [key] of the event. *)
Definition handleKeydown (key : string) (c : Controls) : Controls :=
  if String.eqb key "ArrowLeft" || String.eqb key "ArrowUp"
  then MkControls (prevPage (nav c)) (scale c)
  else if String.eqb key "ArrowRight" || String.eqb key "ArrowDown"
          || String.eqb key " "
  then MkControls (nextPage (nav c)) (scale c)
  else c.

(** What reaches the component once it is mounted. *)
Inductive Event : Type :=
  | KeyDown (key : string)
  | GoTo (pageNum : Js.number)
  | Previous
  | Next
  | ZoomIn
  | ZoomOut.

Definition step (c : Controls) (ev : Event) : Controls :=
  match ev with
  | KeyDown key => handleKeydown key c
  | GoTo pageNum => MkControls (goToPage pageNum (nav c)) (scale c)
  | Previous => MkControls (prevPage (nav c)) (scale c)
  | Next => MkControls (nextPage (nav c)) (scale c)
  | ZoomIn => zoomIn c
  | ZoomOut => zoomOut c
  end.

Definition run (c : Controls) (evs : list Event) : Controls := foldl step c evs.

(** A request for a page by its integer number, or no request. *)
Definition integer_request (ev : Event) : Prop :=
  match ev with
  | GoTo pageNum => ∃ z, pageNum = Js.Num z
  | _ => True
  end.

(** The zoom factor is a whole number of quarters between 0.5 and 3. *)
Definition scale_in_range (c : Controls) : Prop :=
  ((1 # 2) <= scale c)%Q ∧ (scale c <= 3)%Q ∧ ∃ k : Z, (scale c == k # 4)%Q.

End PdfControls.

(** ** lib/components/RtfViewer.svelte *)

Module RtfViewer.

(** Number of octets of the white-space character ([\s]) a string
    starts with, 0 when it starts with none; the characters are those of
    [Js.trim_start]. *)
Definition space_width (s : string) : nat :=
  match s with
  | String c0 r0 =>
      let b0 := N_of_ascii c0 in
      if ((9 <=? b0) && (b0 <=? 13) || (b0 =? 32))%N then 1
      else match r0 with
      | String c1 r1 =>
          let b1 := N_of_ascii c1 in
          if ((b0 =? 194) && (b1 =? 160))%N then 2
          else match r1 with
          | String c2 r2 =>
              let b2 := N_of_ascii c2 in
              if ((b0 =? 225) && (b1 =? 154) && (b2 =? 128)
                  || (b0 =? 226) && (b1 =? 128)
                     && ((128 <=? b2) && (b2 <=? 138)
                         || (b2 =? 168) || (b2 =? 169) || (b2 =? 175))
                  || (b0 =? 226) && (b1 =? 129) && (b2 =? 159)
                  || (b0 =? 227) && (b1 =? 128) && (b2 =? 128)
                  || (b0 =? 239) && (b1 =? 187) && (b2 =? 191))%N
              then 3
              else 0
          | EmptyString => 0
          end
      | EmptyString => 0
      end
  | EmptyString => 0
  end.

(** [[a-z]] under the flag [i]. *)
Definition is_letter (c : ascii) : bool :=
  let b := N_of_ascii c in
  ((65 <=? b) && (b <=? 90) || (97 <=? b) && (b <=? 122))%N.

Definition starts_with_letter (s : string) : bool :=
  match s with
  | String c _ => is_letter c
  | EmptyString => false
  end.

(** Where the scan of the first expression stands: in text, in the
    letters of a control word, in its digits (after the optional
    hyphen), or inside a white-space character with [k] more octets to
    drop. *)
Inductive Scan : Type :=
  | Text
  | Letters
  | Digits
  | Skip (k : nat).

(** [.replace(/\\[a-z]+[-]?\d*\s?/gi, '')]: a backslash followed by a
    letter opens a match, which takes the letters, one hyphen if there
    is one, the digits and one white-space character if there is one. *)
Fixpoint strip_control_words (st : Scan) (s : string) : string :=
  match s with
  | EmptyString => EmptyString
  | String c rest =>
      let text :=
        if Ascii.eqb c "\" && starts_with_letter rest
        then strip_control_words Letters rest
        else String c (strip_control_words Text rest) in
      let space :=
        match space_width s with
        | O => text
        | S k => strip_control_words (Skip k) rest
        end in
      match st with
      | Text => text
      | Letters =>
          if is_letter c then strip_control_words Letters rest
          else if Ascii.eqb c "-" || Js.is_digit c
          then strip_control_words Digits rest
          else space
      | Digits =>
          if Js.is_digit c then strip_control_words Digits rest else space
      | Skip O => text
      | Skip (S k) => strip_control_words (Skip k) rest
      end
  end.

(** [.replace(/[{}]/g, '')]. *)
Fixpoint strip_braces (s : string) : string :=
  match s with
  | EmptyString => EmptyString
  | String c rest =>
      if Ascii.eqb c "{" || Ascii.eqb c "}" then strip_braces rest
      else String c (strip_braces rest)
  end.

(** [String.fromCharCode(n)] for [n] below 256, in UTF-8. *)
Definition fromCharCode (n : N) : string :=
  if (n <? 128)%N then String (ascii_of_N n) EmptyString
  else String (ascii_of_N (192 + n / 64))
         (String (ascii_of_N (128 + n mod 64)) EmptyString).

(** [.replace(/\\'([0-9a-f]{2})/gi, ...)]: a backslash, an apostrophe
    and two hexadecimal digits become the character of that code. *)
Fixpoint decode_hex_escapes (s : string) : string :=
  match s with
  | EmptyString => EmptyString
  | String c rest =>
      match rest with
      | String q (String h (String l rest')) =>
          match Uri.hex_value h, Uri.hex_value l with
          | Some a, Some b =>
              if Ascii.eqb c "\" && Ascii.eqb q "'"
              then fromCharCode (16 * a + b) +:+ decode_hex_escapes rest'
              else String c (decode_hex_escapes rest)
          | _, _ => String c (decode_hex_escapes rest)
          end
      | _ => String c (decode_hex_escapes rest)
      end
  end.

(** [.replace(/\r\n/g, '\n')]. *)
Fixpoint unix_newlines (s : string) : string :=
  match s with
  | EmptyString => EmptyString
  | String c rest =>
      match rest with
      | String d rest' =>
          if (N_of_ascii c =? 13)%N && (N_of_ascii d =? 10)%N
          then String d (unix_newlines rest')
          else String c (unix_newlines rest)
      | EmptyString => String c EmptyString
      end
  end.

(** The white space at the end of a string removed. *)
Fixpoint trim_end (s : string) : string :=
  match s with
  | EmptyString => EmptyString
  | String c rest =>
      match Js.trim_start (String c (trim_end rest)) with
      | EmptyString => EmptyString
      | _ => String c (trim_end rest)
      end
  end.

(** [s.trim()]. *)
Definition trim (s : string) : string := trim_end (Js.trim_start s).

(** [extractPlainText]. *)
Definition extractPlainText (rtf : string) : string :=
  trim (unix_newlines (decode_hex_escapes (strip_braces
    (strip_control_words Text rtf)))).

(** The component state [loadRtf] writes; [El] stands for the elements
    the RTF library renders. *)
Record State (El : Type) : Type := MkState {
  htmlElements : option (list El);
  rawText : option string;
  loading : bool;
  error : option string
}.
Arguments MkState {El} _ _ _ _.
Arguments htmlElements {El} _.
Arguments rawText {El} _.
Arguments loading {El} _.
Arguments error {El} _.

(** How [fetch(src)] ends: it rejects (with an [Error] and its message,
    or with something else), answers with a status that is not ok, or
    delivers the text of the file. *)
Inductive Fetched : Type :=
  | Rejected (message : option string)
  | NotOk
  | Body (content : string).

(** [loadRtf], given how the fetch ends and what the RTF library makes
    of the content ([None] when it throws). *)
Definition loadRtf {El : Type} (fetched : Fetched)
    (rendered : string → option (list El)) (st : State El) : State El :=
  match fetched with
  | Rejected message =>
      MkState None None false (Some (default "Failed to load RTF file" message))
  | NotOk => MkState None None false (Some "Failed to load RTF file")
  | Body content =>
      match rendered content with
      | Some elements => MkState (Some elements) None false None
      | None => MkState None (Some (extractPlainText content)) false None
      end
  end.

(** What the template shows. *)
Inductive View (El : Type) : Type :=
  | Spinner
  | ErrorPanel (message : string)
  | Html (elements : list El)
  | Extracted (text : string)
  | Blank.
Arguments Spinner {El}.
Arguments ErrorPanel {El} _.
Arguments Html {El} _.
Arguments Extracted {El} _.
Arguments Blank {El}.

(** The template: the first branch whose condition is truthy. *)
Definition view {El : Type} (st : State El) : View El :=
  if loading st then Spinner
  else match error st with
       | Some (String c m) => ErrorPanel (String c m)
       | _ =>
           match htmlElements st with
           | Some elements => Html elements
           | None =>
               match rawText st with
               | Some (String c t) => Extracted (String c t)
               | _ => Blank
               end
           end
       end.

(** Text that none of the replacements touches: no backslash, no brace
    and no carriage return. *)
Definition plain (c : ascii) : bool :=
  Js.is_not "\" c && Js.is_not "{" c && Js.is_not "}" c
  && negb (N_of_ascii c =? 13)%N.

End RtfViewer.

(** * Part II: properties *)

(** ** Trees *)

(** Induction over a tree whose children sit in an optional list. *)
Lemma TocEntry_tree_ind (P : TocEntry → Prop) :
  (∀ e, match children e with
        | Some kids => Forall P kids
        | None => True
        end → P e) →
  ∀ e, P e.
Proof.
  intros step. fix IH 1. intros e. apply step.
  destruct e as [n t p ch r u ti s tg d]; simpl.
  destruct ch as [kids|]; [|exact I].
  induction kids as [|k kids IHk]; constructor; auto.
Qed.

Lemma find_append {A} (f : A → bool) (l1 l2 : list A) :
  find f (l1 ++ l2) =
  match find f l1 with
  | Some x => Some x
  | None => find f l2
  end.
Proof.
  induction l1 as [|a l1 IH]; simpl; [reflexivity|].
  destruct (f a); [reflexivity|exact IH].
Qed.

(** ** The client resolver *)

Section Resolver.

Import Page.

(** The resolver returns the first loaded node, in pre-order, whose path
    is the requested one. *)
Lemma findEntryByPath_find (root : TocEntry) (p : string) :
  findEntryByPath root p =
  find (fun n => String.eqb (path n) p) (flatten root).
Proof.
  induction root as [e IH] using TocEntry_tree_ind.
  destruct e as [n t q ch r u ti s tg d]; simpl in *.
  destruct (String.eqb q p); [reflexivity|].
  destruct ch as [kids|]; [|reflexivity].
  induction kids as [|k kids IHk]; simpl; [reflexivity|].
  inversion IH as [|? ? Hk Hkids]; subst.
  rewrite find_append, <- Hk.
  destruct (findEntryByPath k p); [reflexivity|].
  apply IHk, Hkids.
Qed.

(** C2. For every tree and every path [P], [findEntryByPath] is total
    (it never throws): when some loaded node has path [P] it returns a
    node of the tree whose path is [P]; when the paths of the tree are
    unique it is that very node; and when no node has path [P] it
    returns null. *)
Theorem findEntryByPath_resolves (root : TocEntry) (P : string) :
  (∀ n, n ∈ flatten root → path n = P →
     ∃ found, findEntryByPath root P = Some found
              ∧ found ∈ flatten root ∧ path found = P)
  ∧ (∀ n, n ∈ flatten root → path n = P →
       NoDup (path <$> flatten root) → findEntryByPath root P = Some n)
  ∧ ((∀ n, n ∈ flatten root → path n ≠ P) → findEntryByPath root P = None).
Proof.
  rewrite findEntryByPath_find.
  assert (Hsome : ∀ n, n ∈ flatten root → path n = P →
            ∃ found, find (λ n, String.eqb (path n) P) (flatten root) = Some found
                     ∧ found ∈ flatten root ∧ path found = P).
  { intros n Hin Hp.
    destruct (find _ (flatten root)) as [found|] eqn:Hf.
    - apply find_some in Hf as [Hin' Heq].
      exists found. split; [reflexivity|]. split.
      + by apply list_elem_of_In.
      + by apply String.eqb_eq.
    - apply list_elem_of_In in Hin.
      pose proof (find_none _ _ Hf n Hin) as Hne. simpl in Hne.
      rewrite <- Hp, String.eqb_refl in Hne. discriminate. }
  split; [exact Hsome|]. split.
  - intros n Hin Hp Hnd.
    destruct (Hsome n Hin Hp) as (found & -> & Hin' & Hp').
    f_equal.
    apply list_elem_of_lookup in Hin as [i Hi].
    apply list_elem_of_lookup in Hin' as [j Hj].
    assert (i = j) as ->.
    { eapply NoDup_lookup; [exact Hnd| |].
      - rewrite list_lookup_fmap, Hi. reflexivity.
      - rewrite list_lookup_fmap, Hj. simpl. congruence. }
    congruence.
  - intros Hnone.
    destruct (find _ (flatten root)) as [found|] eqn:Hf; [|reflexivity].
    apply find_some in Hf as [Hin Heq].
    apply String.eqb_eq in Heq. apply list_elem_of_In in Hin.
    destruct (Hnone found Hin Heq).
Qed.

Lemma findEntryByPath_resolves_witness :
  Sample.doc_pdf ∈ flatten Sample.full_tree
  ∧ ∃ found, findEntryByPath Sample.full_tree "documents/A/B/doc.pdf" = Some found
             ∧ found ∈ flatten Sample.full_tree
             ∧ path found = "documents/A/B/doc.pdf".
Proof.
  assert (Hin : Sample.doc_pdf ∈ flatten Sample.full_tree).
  { apply list_elem_of_In. vm_compute. tauto. }
  split; [exact Hin|].
  exact (proj1 (findEntryByPath_resolves Sample.full_tree "documents/A/B/doc.pdf")
           Sample.doc_pdf Hin eq_refl).
Defined.

(** C3, as stated, fails: the sample tree holds [documents/A] as an
    unexpanded reference; [documents/A/B/doc.pdf] lies in its fragment
    and resolves on the expanded tree, yet the resolver answers null on
    the tree as loaded. *)
Lemma unexpanded_subtree_not_resolved :
  (∃ e, e ∈ flatten Sample.lazy_tree ∧ path e = "documents/A"
        ∧ children e = None ∧ ref e = Some "documents/A/toc.json")
  ∧ findEntryByPath (Toc.expand Sample.lazy_store 3 Sample.lazy_tree)
      "documents/A/B/doc.pdf" = Some Sample.doc_pdf
  ∧ findEntryByPath Sample.lazy_tree "documents/A/B/doc.pdf" = None.
Proof.
  split; [|split; vm_compute; reflexivity].
  exists Sample.unexpanded_A. split; [|repeat split].
  apply list_elem_of_In. vm_compute. right. left. reflexivity.
Qed.

(** C3, amended. [findEntryByPath] fetches nothing.  For a tree holding
    a node whose children are not loaded and a path [P] that no loaded
    node carries: the resolver answers null at that node and on the
    whole tree, whatever its [$ref] points to; on the tree expanded by
    the loader, if [P] lies in a spliced fragment, it returns a node
    whose path is [P]. *)
Theorem findEntryByPath_searches_loaded_nodes
    (fetch : gmap string TocEntry) (fuel : nat)
    (root e n : TocEntry) (P : string) :
  e ∈ flatten root →
  children e = None →
  (∀ m, m ∈ flatten root → path m ≠ P) →
  n ∈ flatten (Toc.expand fetch fuel root) →
  path n = P →
  findEntryByPath e P = None
  ∧ findEntryByPath root P = None
  ∧ ∃ found, findEntryByPath (Toc.expand fetch fuel root) P = Some found
             ∧ path found = P.
Proof.
  intros He Hkids Hfresh Hin Hp. split; [|split].
  - specialize (Hfresh e He).
    destruct e as [nm t q ch r u ti s tg d]; simpl in *. subst ch.
    destruct (String.eqb_spec q P); [contradiction|reflexivity].
  - rewrite findEntryByPath_find.
    destruct (find _ _) as [found|] eqn:Hf; [|reflexivity].
    apply find_some in Hf as [Hfound Heq].
    apply String.eqb_eq in Heq. apply list_elem_of_In in Hfound.
    destruct (Hfresh found Hfound Heq).
  - rewrite findEntryByPath_find.
    destruct (find _ _) as [found|] eqn:Hf.
    + apply find_some in Hf as [_ Heq]. apply String.eqb_eq in Heq. eauto.
    + apply list_elem_of_In in Hin.
      pose proof (find_none _ _ Hf n Hin) as Hne. simpl in Hne.
      rewrite Hp, String.eqb_refl in Hne. discriminate.
Qed.

Lemma findEntryByPath_searches_loaded_nodes_witness :
  findEntryByPath Sample.unexpanded_A "documents/A/B/doc.pdf" = None
  ∧ findEntryByPath Sample.lazy_tree "documents/A/B/doc.pdf" = None
  ∧ ∃ found, findEntryByPath (Toc.expand Sample.lazy_store 3 Sample.lazy_tree)
               "documents/A/B/doc.pdf" = Some found
             ∧ path found = "documents/A/B/doc.pdf".
Proof.
  assert (He : Sample.unexpanded_A ∈ flatten Sample.lazy_tree).
  { apply list_elem_of_In. vm_compute. tauto. }
  assert (Hfresh : ∀ m, m ∈ flatten Sample.lazy_tree →
                        path m ≠ "documents/A/B/doc.pdf").
  { intros m Hm. apply list_elem_of_In in Hm. vm_compute in Hm.
    destruct Hm as [<-|[<-|[<-|[]]]]; discriminate. }
  assert (Hin : Sample.doc_pdf
                ∈ flatten (Toc.expand Sample.lazy_store 3 Sample.lazy_tree)).
  { apply list_elem_of_In. vm_compute. tauto. }
  exact (findEntryByPath_searches_loaded_nodes Sample.lazy_store 3
           Sample.lazy_tree Sample.unexpanded_A Sample.doc_pdf
           "documents/A/B/doc.pdf" He eq_refl Hfresh Hin eq_refl).
Defined.

(** On a successful resolution [handleHashChange] selects the entry and
    expands its ancestor paths; otherwise only the scroll position
    changes. *)
Lemma handleHashChange_resolved (location_hash : string) (st : PageState)
    (root : TocEntry) (p : string) (scroll : option Js.number) :
  parseHash location_hash = Returns (MkHashState p scroll) →
  p ≠ EmptyString →
  toc st = Some root →
  handleHashChange location_hash st
  = Returns
      match findEntryByPath root p with
      | Some entry => MkPageState (toc st) (Some entry) (getParentPaths p) scroll
      | None => MkPageState (toc st) (selectedEntry st) (expandedPaths st) scroll
      end.
Proof.
  intros Hparse Hp Htoc. unfold handleHashChange. rewrite Hparse, Htoc.
  destruct p as [|c p]; [by destruct Hp|].
  destruct (findEntryByPath root (String c p)); reflexivity.
Qed.

End Resolver.

(** ** Metadata inheritance and fallbacks *)

Section Walker.

Import Toc.

Variable kind_of : string → string.
Variable lazy : string → FsNode → bool.

Lemma nearest_drug_app (l1 l2 : list FsNode) :
  nearest_drug (l1 ++ l2) = merge_drug (nearest_drug l1) (nearest_drug l2).
Proof.
  induction l1 as [|a l1 IH]; simpl; [reflexivity|].
  destruct (own_drug a); [reflexivity|exact IH].
Qed.

Lemma handed_down_step (n : FsNode) (chain : list FsNode)
    (inherited : option string) :
  handed_down (reverse chain) (merge_drug (own_drug n) inherited)
  = handed_down (reverse (n :: chain)) inherited.
Proof.
  unfold handed_down. rewrite reverse_cons, nearest_drug_app. simpl.
  destruct (nearest_drug (reverse chain)), (own_drug n); reflexivity.
Qed.

Lemma drug_walk (inherited parent : option string)
    (fmeta : gmap string FileOverlay) (n : FsNode) :
  drug (walk kind_of lazy inherited parent fmeta n)
  = merge_drug (own_drug n) inherited.
Proof.
  destruct n as [nm|nm meta entries]; simpl; [reflexivity|].
  destruct (lazy _ _); reflexivity.
Qed.


(** Every node of the emitted tree is the walk of the snapshot node at
    the same position, in the context its ancestors build up. *)
Lemma toc_at_walk (pos : list nat) :
  ∀ (n : FsNode) (inherited parent : option string)
    (fmeta : gmap string FileOverlay) (N : TocEntry),
  toc_at pos (walk kind_of lazy inherited parent fmeta n) = Some N →
  ∃ ancestors own parent',
    lineage pos n = Some (ancestors ++ [own])
    ∧ N = walk kind_of lazy (handed_down (reverse ancestors) inherited) parent'
            (overlays_in_force ancestors fmeta) own.
Proof.
  induction pos as [|i pos IH]; intros n inherited parent fmeta N HN.
  - simpl in HN. injection HN as <-.
    exists [], n, parent. split; [reflexivity|].
    unfold handed_down, overlays_in_force. reflexivity.
  - destruct n as [nm|nm meta entries]; simpl in HN; [discriminate|].
    destruct (lazy _ _); simpl in HN; [discriminate|].
    rewrite list_lookup_fmap in HN.
    destruct (entries !! i) as [c|] eqn:Hc; simpl in HN; [|discriminate].
    apply IH in HN as (ancestors & own & parent' & Hl & ->).
    exists (FsDir nm meta entries :: ancestors), own, parent'. split.
    + simpl. rewrite Hc, Hl. reflexivity.
    + rewrite handed_down_step. f_equal.
      unfold overlays_in_force.
      destruct ancestors as [|a ancestors] using rev_ind; [reflexivity|].
      rewrite app_comm_cons, !last_snoc. reflexivity.
Qed.

(** With lazy loading off, every snapshot node has its emitted node. *)
Lemma lineage_emitted (pos : list nat) :
  ∀ (n : FsNode) (inherited parent : option string)
    (fmeta : gmap string FileOverlay) (chain : list FsNode),
  lineage pos n = Some chain →
  is_Some (toc_at pos (walk kind_of never inherited parent fmeta n)).
Proof.
  induction pos as [|i pos IH]; intros n inherited parent fmeta chain Hl.
  - simpl. eauto.
  - destruct n as [nm|nm meta entries]; simpl in Hl; [discriminate|].
    destruct (entries !! i) as [c|] eqn:Hc; [|discriminate].
    destruct (lineage pos c) as [l|] eqn:Hlc; [|discriminate].
    simpl. rewrite list_lookup_fmap, Hc. simpl.
    eapply IH, Hlc.
Qed.

(** C1. For every node [N] of the emitted tree, with [own] the snapshot
    node it stands for and [ancestors] the directories above it: if the
    overlay of [own] defines [drug], [N] carries that value; otherwise
    it carries the [drug] of the nearest ancestor that defines one; and
    if nobody on the chain defines [drug], the field is absent. *)
Theorem drug_inheritance (root : FsNode) (pos : list nat) (N : TocEntry) :
  toc_at pos (assemble kind_of lazy root) = Some N →
  ∃ ancestors own,
    lineage pos root = Some (ancestors ++ [own])
    ∧ (∀ d, own_drug own = Some d → drug N = Some d)
    ∧ (own_drug own = None → drug N = nearest_drug (reverse ancestors))
    ∧ ((∀ a, a ∈ ancestors ++ [own] → own_drug a = None) → drug N = None).
Proof.
  intros HN. apply toc_at_walk in HN as (ancestors & own & parent' & Hl & ->).
  exists ancestors, own. split; [exact Hl|].
  rewrite drug_walk. unfold handed_down.
  assert (Hroot : ∀ o : option string, merge_drug o None = o) by (by intros []).
  rewrite Hroot. split; [|split].
  - intros d ->. reflexivity.
  - intros ->. reflexivity.
  - intros Hnone.
    rewrite (Hnone own) by (apply elem_of_app; right; apply list_elem_of_singleton; reflexivity).
    simpl.
    assert (Hanc : ∀ a, a ∈ reverse ancestors → own_drug a = None).
    { intros a Ha. apply Hnone, elem_of_app. left. by apply elem_of_reverse. }
    induction (reverse ancestors) as [|a l IHl]; simpl; [reflexivity|].
    rewrite (Hanc a) by (left).
    apply IHl. intros b Hb. apply Hanc. by right.
Qed.





End Walker.

Lemma drug_inheritance_witness :
  ∃ ancestors own,
    Toc.lineage [0; 0; 0]%nat Sample.archive = Some (ancestors ++ [own])
    ∧ (∀ d, Toc.own_drug own = Some d → drug Sample.doc_pdf = Some d)
    ∧ (Toc.own_drug own = None →
       drug Sample.doc_pdf = Toc.nearest_drug (reverse ancestors))
    ∧ ((∀ a, a ∈ ancestors ++ [own] → Toc.own_drug a = None) →
       drug Sample.doc_pdf = None).
Proof.
  assert (H : toc_at [0; 0; 0]%nat
                (Toc.assemble Sample.extension Toc.never Sample.archive)
              = Some Sample.doc_pdf) by (vm_compute; reflexivity).
  exact (drug_inheritance Sample.extension Toc.never Sample.archive
           [0; 0; 0]%nat Sample.doc_pdf H).
Defined.



(** On screen: the file with a summary and no title is headed by its
    file name; the file with no overlay has no heading. *)
Example displayedTitle_samples :
  DocumentViewer.displayedTitle Sample.notes_txt = Some "notes.txt"
  ∧ DocumentViewer.displayedTitle Sample.doc_pdf = None.
Proof. split; reflexivity. Qed.

(** The scenarios of the specification on the sample archive: a file
    two levels below the folder that sets [drug] inherits it and is
    titled by its file name; a nested overlay overrides [drug] for its
    own subtree only; the overlay of a file that does not exist emits
    nothing. *)
Example sample_walk :
  Toc.fields <$> flatten Sample.full_tree
  = [ ("documents", "documents", "folder", Some "documents", None, None, None);
      ("documents/A", "A", "folder", Some "A", None, None, Some "X");
      ("documents/A/B", "B", "folder", Some "B", None, None, Some "X");
      ("documents/A/B/doc.pdf", "doc.pdf", "pdf", Some "doc.pdf", None, None, Some "X");
      ("documents/A/C", "C", "folder", Some "Section C", None, None, Some "Y");
      ("documents/A/C/report.pdf", "report.pdf", "pdf", Some "Report",
       Some "A report", Some ["csr"], Some "Y");
      ("documents/A/C/notes.txt", "notes.txt", "txt", Some "notes.txt", None, None, Some "Y");
      ("documents/README.md", "README.md", "md", Some "README.md", None, None, None) ].
Proof. vm_compute. reflexivity. Qed.

(** ** Lazy loading *)

Lemma length_append (a b : string) :
  String.length (a +:+ b) = String.length a + String.length b.
Proof. induction a as [|c a IH]; simpl; [reflexivity|]. by rewrite IH. Qed.

Lemma append_inj_suffix (c a b : string) : a +:+ c = b +:+ c → a = b.
Proof.
  revert b. induction a as [|x a IH]; intros [|y b] H.
  - reflexivity.
  - apply (f_equal String.length) in H.
    rewrite !length_append in H. simpl in H. lia.
  - apply (f_equal String.length) in H.
    rewrite !length_append in H. simpl in H. lia.
  - simpl in H. injection H as -> H. f_equal. by apply IH.
Qed.

Lemma FsNode_tree_ind (P : Toc.FsNode → Prop) :
  (∀ nm, P (Toc.FsFile nm)) →
  (∀ nm meta entries, Forall P entries → P (Toc.FsDir nm meta entries)) →
  ∀ n, P n.
Proof.
  intros Hfile Hdir. fix IH 1. intros [nm|nm meta entries].
  - apply Hfile.
  - apply Hdir. induction entries as [|c entries IHe]; constructor; auto.
Qed.

Section Lazy.

Import Toc.

Variable kind_of : string → string.
Variable lazy : string → FsNode → bool.

Lemma height_entry (nm : string) (meta : option Metadata)
    (entries : list FsNode) (c : FsNode) :
  c ∈ entries → (height c < height (FsDir nm meta entries))%nat.
Proof.
  simpl. induction 1 as [c l|c c' l _ IH]; simpl; lia.
Qed.

Lemma walk_dir (L : string → FsNode → bool) (inherited parent : option string)
    (fmeta : gmap string FileOverlay) (nm : string) (meta : option Metadata)
    (entries : list FsNode) :
  let n := FsDir nm meta entries in
  let p := child_path parent nm in
  let d := merge_drug (own_drug n) inherited in
  walk kind_of L inherited parent fmeta n
  = if L p n
    then folder_entry nm p (folder_overlay n) d None (Some (ref_of p))
    else folder_entry nm p (folder_overlay n) d
           (Some (map (walk kind_of L d (Some p) (file_overlays n)) entries)) None.
Proof. reflexivity. Qed.

Lemma fragments_dir (inherited parent : option string)
    (nm : string) (meta : option Metadata) (entries : list FsNode) :
  let n := FsDir nm meta entries in
  let p := child_path parent nm in
  let d := merge_drug (own_drug n) inherited in
  fragments kind_of lazy inherited parent n
  = (if lazy p n
     then [(ref_of p,
            folder_entry nm p (folder_overlay n) d
              (Some (map (walk kind_of lazy d (Some p) (file_overlays n)) entries))
              None)]
     else [])
    ++ flat_map (fragments kind_of lazy d (Some p)) entries.
Proof. reflexivity. Qed.

Lemma flatten_folder (nm p : string) (fo : option FolderOverlay)
    (d : option string) (kids : list TocEntry) (r : option string) :
  flatten (folder_entry nm p fo d (Some kids) r)
  = folder_entry nm p fo d (Some kids) r :: flat_map flatten kids.
Proof. reflexivity. Qed.

(** The keys of the fragments are references of folder paths, in the
    order of the walk. *)
Lemma fragment_keys_sublist (n : FsNode) :
  ∀ (inherited parent : option string) (fmeta : gmap string FileOverlay),
  (fragments kind_of lazy inherited parent n).*1
  `sublist_of`
  (ref_of <$> (path <$> flatten (walk kind_of never inherited parent fmeta n))).
Proof.
  induction n as [nm|nm meta entries IH] using FsNode_tree_ind;
    intros inherited parent fmeta.
  - apply sublist_nil_l.
  - rewrite fragments_dir, walk_dir. cbv zeta. unfold never at 1.
    rewrite flatten_folder, !fmap_cons, fmap_app.
    generalize (file_overlays (FsDir nm meta entries)) as fo.
    generalize (merge_drug (own_drug (FsDir nm meta entries)) inherited) as d.
    generalize (folder_overlay (FsDir nm meta entries)) as fov.
    generalize (lazy (child_path parent nm) (FsDir nm meta entries)) as cut.
    generalize (child_path parent nm) as p.
    intros p cut fov d fo.
    apply (sublist_app _ [ref_of p]).
    + destruct cut; [reflexivity|apply sublist_nil_l].
    + induction entries as [|c entries IHe]; [reflexivity|].
      apply Forall_cons_1 in IH as [Hc Hrest].
      change (flat_map ?f (c :: entries)) with (f c ++ flat_map f entries).
      change (map ?f (c :: entries)) with (f c :: map f entries).
      change (flat_map ?f (?x :: ?l)) with (f x ++ flat_map f l).
      rewrite !fmap_app. apply sublist_app; [apply Hc|apply IHe, Hrest].
Qed.

(** Expanding the walk of a subtree against a store that serves its
    fragments gives the fields of the walk that never cuts. *)
Lemma expand_walk (st : gmap string TocEntry) (n : FsNode) :
  ∀ (fuel : nat) (inherited parent : option string)
    (fmeta : gmap string FileOverlay),
  (height n ≤ fuel)%nat →
  (∀ k v, (k, v) ∈ fragments kind_of lazy inherited parent n → st !! k = Some v) →
  fields <$> flatten (expand st fuel (walk kind_of lazy inherited parent fmeta n))
  = fields <$> flatten (walk kind_of never inherited parent fmeta n).
Proof.
  induction n as [nm|nm meta entries IH] using FsNode_tree_ind;
    intros fuel inherited parent fmeta Hh Hst.
  - destruct fuel; reflexivity.
  - destruct fuel as [|fuel]; [simpl in Hh; lia|].
    assert (Hfuel : ∀ c, c ∈ entries → (height c ≤ fuel)%nat).
    { intros c Hc. pose proof (height_entry nm meta entries c Hc). lia. }
    clear Hh. revert Hst.
    rewrite fragments_dir, !walk_dir. cbv zeta. unfold never at 1.
    rewrite flatten_folder.
    generalize (file_overlays (FsDir nm meta entries)) as fo.
    generalize (merge_drug (own_drug (FsDir nm meta entries)) inherited) as d.
    generalize (folder_overlay (FsDir nm meta entries)) as fov.
    generalize (lazy (child_path parent nm) (FsDir nm meta entries)) as cut.
    generalize (child_path parent nm) as p.
    intros p cut fov d fo Hst.
    assert (Hkids :
      fields <$> flat_map flatten
        (map (expand st fuel) (map (walk kind_of lazy d (Some p) fo) entries))
      = fields <$> flat_map flatten (map (walk kind_of never d (Some p) fo) entries)).
    { assert (Hsub : ∀ c, c ∈ entries → ∀ k v,
                (k, v) ∈ fragments kind_of lazy d (Some p) c → st !! k = Some v).
      { intros c Hc k v Hkv. apply Hst, elem_of_app. right.
        apply list_elem_of_In, in_flat_map. exists c.
        split; by apply list_elem_of_In. }
      clear Hst.
      induction entries as [|c entries IHe]; [reflexivity|].
      apply Forall_cons_1 in IH as [Hc Hrest].
      change (fields <$> flatten (expand st fuel (walk kind_of lazy d (Some p) fo c))
                ++ flat_map flatten
                     (map (expand st fuel) (map (walk kind_of lazy d (Some p) fo) entries))
              = fields <$> flatten (walk kind_of never d (Some p) fo c)
                  ++ flat_map flatten (map (walk kind_of never d (Some p) fo) entries)).
      rewrite !fmap_app. f_equal.
      - apply Hc; [apply Hfuel; left|apply Hsub; left].
      - apply IHe; [exact Hrest| |].
        + intros c' Hc'. apply Hfuel. by right.
        + intros c' Hc'. apply Hsub. by right. }
    destruct cut.
    + pose proof (Hst _ _ (list_elem_of_here _ _)) as Hfetch.
      change (fields <$> flatten (expand st (S fuel)
                (folder_entry nm p fov d None (Some (ref_of p)))))
        with (fields <$> flatten
                {| name := nm; type := "folder"; path := p;
                   children :=
                     option_map (map (expand st fuel))
                       match st !! ref_of p with
                       | Some frag => children frag
                       | None => None
                       end;
                   ref := Some (ref_of p); url := None;
                   title := Some (default nm (fov ≫= fo_title));
                   summary := fov ≫= fo_summary; tags := None; drug := d |}).
      rewrite Hfetch.
      change (fields (folder_entry nm p fov d None None)
                :: (fields <$> flat_map flatten
                      (map (expand st fuel)
                         (map (walk kind_of lazy d (Some p) fo) entries)))
              = fields (folder_entry nm p fov d None None)
                  :: (fields <$> flat_map flatten
                        (map (walk kind_of never d (Some p) fo) entries))).
      f_equal. exact Hkids.
    + change (fields (folder_entry nm p fov d None None)
                :: (fields <$> flat_map flatten
                      (map (expand st fuel)
                         (map (walk kind_of lazy d (Some p) fo) entries)))
              = fields (folder_entry nm p fov d None None)
                  :: (fields <$> flat_map flatten
                        (map (walk kind_of never d (Some p) fo) entries))).
      f_equal. exact Hkids.
Qed.

(** C4. For every snapshot whose paths are unique, expanding every
    reference of the lazily assembled tree against the fragment store
    (to a depth that covers the snapshot) yields the nodes of the tree
    assembled with lazy loading off: same paths, names and types, same
    merged title, summary, tags and drug, in the same order. *)
Theorem expanding_refs_gives_eager_tree (root : FsNode) (fuel : nat) :
  NoDup (path <$> flatten (assemble kind_of never root)) →
  (height root ≤ fuel)%nat →
  fields <$> flatten (expand (store kind_of lazy root) fuel
                        (assemble kind_of lazy root))
  = fields <$> flatten (assemble kind_of never root).
Proof.
  intros Hnd Hfuel. apply expand_walk; [exact Hfuel|].
  intros k v Hkv. apply elem_of_list_to_map_1; [|exact Hkv].
  eapply sublist_NoDup; [|apply (fragment_keys_sublist root None None ∅)].
  apply NoDup_fmap_2; [|exact Hnd].
  intros a b. apply append_inj_suffix.
Qed.

End Lazy.

Lemma expanding_refs_gives_eager_tree_witness :
  Toc.fields <$> flatten (Toc.expand Sample.lazy_store 4 Sample.lazy_tree)
  = Toc.fields <$> flatten Sample.full_tree.
Proof.
  assert (Hnd : NoDup (path <$> flatten
                         (Toc.assemble Sample.extension Toc.never Sample.archive))).
  { apply (bool_decide_unpack _). vm_compute. exact I. }
  assert (Hfuel : (Toc.height Sample.archive ≤ 4)%nat).
  { vm_compute. repeat constructor. }
  exact (expanding_refs_gives_eager_tree Sample.extension Sample.cut_at_A
           Sample.archive 4 Hnd Hfuel).
Defined.

(** ** Ancestor paths of a deep link *)

Section ParentPaths.

Import Js Page.


Lemma split_cons (sep : ascii) (s : string) :
  ∃ w ws, split sep s = w :: ws.
Proof.
  induction s as [|c s (w & ws & IH)]; simpl; [eauto|].
  destruct (Ascii.eqb c sep); [eauto|]. rewrite IH. eauto.
Qed.

Lemma join_split (sep : ascii) (s : string) :
  join (String sep EmptyString) (split sep s) = s.
Proof.
  induction s as [|c s IH]; simpl; [reflexivity|].
  destruct (Ascii.eqb_spec c sep) as [->|Hne].
  - destruct (split_cons sep s) as (w & ws & Hs). rewrite Hs in *.
    simpl. simpl in IH. by rewrite IH.
  - destruct (split_cons sep s) as (w & ws & Hs). rewrite Hs in *.
    destruct ws as [|w' ws]; simpl in *; by rewrite <- IH.
Qed.

Lemma split_length (sep : ascii) (s : string) :
  length (split sep s) = S (occurrences sep s).
Proof.
  induction s as [|c s IH]; simpl; [reflexivity|].
  destruct (Ascii.eqb c sep); simpl; [by rewrite IH|].
  destruct (split_cons sep s) as (w & ws & Hs). rewrite Hs in *. exact IH.
Qed.



(** The loop of [getParentPaths] collects the image of its index range. *)
Lemma collect_paths (f : nat → string) (l : list nat) (acc : gset string) :
  foldl (λ (paths : gset string) (i : nat), paths ∪ {[ f i ]}) acc l
  = acc ∪ list_to_set (f <$> l).
Proof.
  revert acc. induction l as [|i l IH]; intros acc; simpl.
  - symmetry. apply union_empty_r_L.
  - rewrite IH. symmetry. apply (assoc_L (∪)).
Qed.



(** The example of the comment in [getParentPaths]. *)
Example getParentPaths_documents :
  getParentPaths "documents/ALLN-346/foo/bar.pdf"
  = {[ "documents"; "documents/ALLN-346"; "documents/ALLN-346/foo" ]}.
Proof. vm_compute. reflexivity. Qed.

Example getParentPaths_single_segment : getParentPaths "README.md" = ∅.
Proof. vm_compute. reflexivity. Qed.

End ParentPaths.

(** ** The scroll position of a deep link *)

Section Hash.

Import Js Uri Page.

(** C8 does not hold of the code: for the hash [#doc.pdf?page=abc]
    [parseHash] returns the position [NaN], which is neither null nor an
    integer; [parseInt] finds no digit and its result is not checked. *)
Theorem parseHash_scroll_NaN :
  parseHash "#doc.pdf?page=abc"
  = Returns {| hs_path := "doc.pdf"; hs_scroll := Some NaN |}.
Proof. reflexivity. Qed.

(** Case analysis over the 256 characters. *)
Ltac each_ascii c :=
  destruct c as [[] [] [] [] [] [] [] []].

Lemma digits_value_uint (d : Decimal.uint) (acc : Z) :
  digits_value acc (NilEmpty.string_of_uint d)
  = (Z.of_N (DecimalPos.Unsigned.of_lu (Decimal.rev d))
     + acc * 10 ^ Z.of_N (DecimalPos.Unsigned.usize d))%Z.
Proof.
  revert acc.
  induction d as [|d IH|d IH|d IH|d IH|d IH|d IH|d IH|d IH|d IH|d IH]; intros acc;
    [simpl; lia|..];
    cbn [NilEmpty.string_of_uint digits_value]; rewrite IH;
    unfold Decimal.rev; cbn [Decimal.revapp];
    rewrite (DecimalPos.Unsigned.of_lu_revapp d (_ Decimal.Nil));
    cbn [DecimalPos.Unsigned.usize DecimalPos.Unsigned.of_lu];
    rewrite N2Z.inj_add, N2Z.inj_mul, N2Z.inj_pow, N2Z.inj_succ, Z.pow_succ_r
      by apply N2Z.is_nonneg;
    unfold digit_value; simpl; fold (Decimal.rev d); lia.
Qed.

Lemma uint_digits (d : Decimal.uint) :
  all_chars is_digit (NilEmpty.string_of_uint d) = true.
Proof. induction d; simpl; auto. Qed.

Lemma decimal_value (z : Z) :
  (0 ≤ z)%Z →
  ∃ c ds, number_to_string (Num z) = String c ds
          ∧ is_digit c = true ∧ all_chars is_digit ds = true
          ∧ digits_value 0 (String c ds) = z.
Proof.
  intros Hz.
  assert (Hs : number_to_string (Num z)
               = NilEmpty.string_of_uint (N.to_uint (Z.to_N z))
               ∧ N.to_uint (Z.to_N z) ≠ Decimal.Nil).
  { destruct z as [|q|q]; [split; [reflexivity|discriminate]| |lia].
    simpl. pose proof (DecimalPos.Unsigned.to_uint_nonnil q) as Hq.
    split; [|exact Hq]. unfold NilZero.string_of_uint.
    destruct (Pos.to_uint q); [by destruct Hq|reflexivity..]. }
  destruct Hs as [Hs Hnil].
  pose proof (uint_digits (N.to_uint (Z.to_N z))) as Hd.
  pose proof (digits_value_uint (N.to_uint (Z.to_N z)) 0) as Hv.
  rewrite <- DecimalPos.Unsigned.of_uint_alt in Hv.
  change (Pos.of_uint (N.to_uint (Z.to_N z))) with (N.of_uint (N.to_uint (Z.to_N z))) in Hv.
  rewrite DecimalN.Unsigned.of_to, Z2N.id in Hv by exact Hz.
  rewrite <- Hs in Hd, Hv.
  destruct (number_to_string (Num z)) as [|c ds] eqn:E.
  - destruct (N.to_uint (Z.to_N z)); simpl in Hs; (by destruct Hnil) || discriminate.
  - simpl in Hd. apply andb_prop in Hd as [Hc Hds].
    exists c, ds. repeat split; [exact Hc|exact Hds|]. rewrite Hv. lia.
Qed.

Lemma all_chars_append (P : ascii → bool) (a b : string) :
  all_chars P (a +:+ b) = all_chars P a && all_chars P b.
Proof.
  induction a as [|c a IH]; simpl; [reflexivity|].
  by rewrite IH, andb_assoc.
Qed.

Lemma all_chars_impl (P Q : ascii → bool) (s : string) :
  (∀ c, P c = true → Q c = true) →
  all_chars P s = true → all_chars Q s = true.
Proof.
  intros HPQ. induction s as [|c s IH]; simpl; [done|].
  intros [Hc Hs]%andb_prop. by rewrite (HPQ c Hc), IH.
Qed.

Lemma trim_start_digit (c : ascii) (rest : string) :
  is_digit c = true → trim_start (String c rest) = String c rest.
Proof.
  intros Hc. each_ascii c; try discriminate Hc;
    destruct rest as [|c1 [|c2 r2]]; reflexivity.
Qed.

Lemma take_digits_all (s : string) :
  all_chars is_digit s = true → take_digits s = s.
Proof.
  induction s as [|c s IH]; simpl; [done|].
  intros [Hc Hs]%andb_prop. by rewrite Hc, IH.
Qed.

(** Parsing the decimal form of a natural number gives the number. *)
Lemma parseInt_number_to_string (z : Z) :
  (0 ≤ z)%Z → parseInt (number_to_string (Num z)) = Num z.
Proof.
  intros Hz. destruct (decimal_value z Hz) as (c & ds & -> & Hc & Hds & Hv).
  unfold parseInt. rewrite (trim_start_digit c ds Hc).
  assert (Hsign : Ascii.eqb c "-" = false ∧ Ascii.eqb c "+" = false).
  { each_ascii c; try discriminate Hc; split; reflexivity. }
  destruct Hsign as [-> ->].
  rewrite take_digits_all by (simpl; by rewrite Hc, Hds).
  by rewrite Hv.
Qed.

Lemma split_plain (sep : ascii) (s : string) :
  all_chars (is_not sep) s = true → split sep s = [s].
Proof.
  induction s as [|c s IH]; simpl; [done|].
  unfold is_not at 1. intros [Hc Hs]%andb_prop.
  apply negb_true_iff in Hc. by rewrite Hc, IH.
Qed.

Lemma split_at (sep : ascii) (a b : string) :
  all_chars (is_not sep) a = true →
  split sep (a +:+ String sep b) = a :: split sep b.
Proof.
  induction a as [|c a IH]; simpl.
  - intros _. by rewrite Ascii.eqb_refl.
  - unfold is_not at 1. intros [Hc Ha]%andb_prop.
    apply negb_true_iff in Hc. by rewrite Hc, IH.
Qed.

Lemma plus_to_space_plain (s : string) :
  all_chars (is_not "+") s = true → plus_to_space s = s.
Proof.
  induction s as [|c s IH]; simpl; [done|].
  unfold is_not at 1. intros [Hc Hs]%andb_prop.
  apply negb_true_iff in Hc. by rewrite Hc, IH.
Qed.

Lemma percent_decode_plain (s : string) :
  all_chars (is_not "%") s = true → percent_decode s = s.
Proof.
  induction s as [|c s IH]; simpl; [done|].
  unfold is_not at 1. intros [Hc Hs]%andb_prop.
  apply negb_true_iff in Hc. by rewrite Hc, IH.
Qed.

Lemma digit_is_not (sep : ascii) :
  is_digit sep = false → ∀ c, is_digit c = true → is_not sep c = true.
Proof.
  intros Hsep c Hc. unfold is_not. apply negb_true_iff, Ascii.eqb_neq.
  intros ->. congruence.
Qed.

Lemma cut_at_equals_at (n v : string) :
  all_chars (is_not "=") n = true →
  cut_at_equals (n +:+ String "=" v) = (n, v).
Proof.
  induction n as [|c n IH]; simpl; [done|].
  unfold is_not at 1. intros [Hc Hn]%andb_prop.
  apply negb_true_iff in Hc. by rewrite Hc, IH.
Qed.

Lemma form_plain_is_not (sep : ascii) (s : string) :
  form_plain sep = false →
  all_chars form_plain s = true → all_chars (is_not sep) s = true.
Proof.
  intros Hsep. apply all_chars_impl. intros c Hc.
  unfold is_not. apply negb_true_iff, Ascii.eqb_neq. intros ->. congruence.
Qed.

(** The query written by [updateHash] parses to its one parameter. *)
Lemma URLSearchParams_single (c : ascii) (n v : string) :
  all_chars form_plain (String c n) = true →
  all_chars form_plain v = true →
  URLSearchParams (String c n +:+ "=" +:+ v) = [(String c n, v)].
Proof.
  intros Hn Hv.
  assert (Hq : Ascii.eqb c "?" = false).
  { simpl in Hn. apply andb_prop in Hn as [Hc _].
    unfold form_plain in Hc. rewrite !andb_true_iff in Hc.
    destruct Hc as [_ Hc]. by apply negb_true_iff in Hc. }
  unfold URLSearchParams.
  change (String c n +:+ "=" +:+ v) with (String c (n +:+ "=" +:+ v)) at 1.
  cbv iota beta. rewrite Hq. unfold parse_urlencoded.
  rewrite split_plain.
  - cbn [flat_map app].
    change (String c n +:+ "=" +:+ v) with (String c (n +:+ "=" +:+ v)) at 1.
    cbv iota beta.
    change ("=" +:+ v) with (String "=" v).
    rewrite cut_at_equals_at by (by apply (form_plain_is_not "=")).
    rewrite !plus_to_space_plain by (by apply (form_plain_is_not "+")).
    by rewrite !percent_decode_plain by (by apply (form_plain_is_not "%")).
  - rewrite !all_chars_append.
    rewrite (form_plain_is_not "&" _ eq_refl Hn), (form_plain_is_not "&" _ eq_refl Hv).
    reflexivity.
Qed.

Lemma digit_form_plain (s : string) :
  all_chars is_digit s = true → all_chars form_plain s = true.
Proof.
  apply all_chars_impl. intros c Hc.
  each_ascii c; try discriminate Hc; reflexivity.
Qed.

Lemma frag_plain_above_space (c : ascii) :
  frag_plain c = true →
  (N_of_ascii c <=? 32)%N = false
  ∧ ((N_of_ascii c =? 9) || (N_of_ascii c =? 10) || (N_of_ascii c =? 13))%N = false.
Proof. each_ascii c; intros H; try discriminate H; split; reflexivity. Qed.

Lemma replaceState_fragment_plain (s : string) :
  all_chars frag_plain s = true → replaceState_fragment s = s.
Proof.
  intros Hs. unfold replaceState_fragment.
  assert (H1 : strip_trailing s = s).
  { induction s as [|c s IH]; simpl; [done|].
    simpl in Hs. apply andb_prop in Hs as [Hc Hs].
    rewrite (IH Hs). destruct (frag_plain_above_space c Hc) as [-> _].
    by destruct s. }
  assert (H2 : remove_tab_newline s = s).
  { clear H1. induction s as [|c s IH]; simpl; [done|].
    simpl in Hs. apply andb_prop in Hs as [Hc Hs].
    destruct (frag_plain_above_space c Hc) as [_ ->]. by rewrite (IH Hs). }
  rewrite H1, H2. clear H1 H2.
  induction s as [|c s IH]; simpl; [done|].
  simpl in Hs. apply andb_prop in Hs as [Hc Hs].
  unfold frag_plain in Hc. apply negb_true_iff in Hc.
  by rewrite Hc, (IH Hs).
Qed.

Lemma encode_char_plain (c : ascii) :
  all_chars (λ x, frag_plain x && is_not "?" x) (encode_char c) = true.
Proof. each_ascii c; reflexivity. Qed.

Lemma encodeURIComponent_plain (p : string) :
  all_chars (λ x, frag_plain x && is_not "?" x) (encodeURIComponent p) = true.
Proof.
  induction p as [|c p IH]; [reflexivity|].
  change (encodeURIComponent (String c p))
    with (encode_char c +:+ encodeURIComponent p).
  by rewrite all_chars_append, encode_char_plain, IH.
Qed.

Lemma unescape_encode_char (c : ascii) (rest : string) :
  unescape_strict (encode_char c +:+ rest)
  = match unescape_strict rest with
    | Some r => Some (String c r)
    | None => None
    end.
Proof. each_ascii c; reflexivity. Qed.

Lemma unescape_encodeURIComponent (p : string) :
  unescape_strict (encodeURIComponent p) = Some p.
Proof.
  induction p as [|c p IH]; [reflexivity|].
  change (encodeURIComponent (String c p))
    with (encode_char c +:+ encodeURIComponent p).
  by rewrite unescape_encode_char, IH.
Qed.

(** Decoding undoes encoding on well-formed strings. *)
Lemma decode_encode (p : string) :
  valid_utf8 p = true → decodeURIComponent (encodeURIComponent p) = Some p.
Proof.
  intros Hp. unfold decodeURIComponent.
  by rewrite unescape_encodeURIComponent, Hp.
Qed.

Lemma digit_frag_plain (s : string) :
  all_chars is_digit s = true → all_chars frag_plain s = true.
Proof.
  apply all_chars_impl. intros c Hc.
  each_ascii c; try discriminate Hc; reflexivity.
Qed.

(** C9. For every well-formed path string and every scroll value that
    is null or a non-negative integer (in the range where numbers are
    exact), reading back with [parseHash] the hash written by
    [updateHash] returns the path and the scroll value, whether the
    selected entry makes the parameter [page] or [scroll]. *)
Theorem hash_round_trip (selected : option TocEntry) (p : string)
    (scroll : option number) :
  valid_utf8 p = true →
  match scroll with
  | Some n => ∃ z, n = Num z ∧ (0 ≤ z ≤ MAX_SAFE_INTEGER)%Z
  | None => True
  end →
  parseHash (updateHash selected p scroll)
  = Returns {| hs_path := p; hs_scroll := scroll |}.
Proof.
  intros Hp Hscroll.
  pose proof (encodeURIComponent_plain p) as Henc.
  assert (Hfrag : all_chars frag_plain (encodeURIComponent p) = true).
  { revert Henc. apply all_chars_impl. by intros c [? _]%andb_prop. }
  assert (Hnoq : all_chars (is_not "?") (encodeURIComponent p) = true).
  { revert Henc. apply all_chars_impl. by intros c [_ ?]%andb_prop. }
  destruct scroll as [n|].
  - destruct Hscroll as (z & -> & Hz & _).
    destruct (decimal_value z Hz) as (c & ds & Hstr & Hc & Hds & Hv).
    assert (Hall : all_chars is_digit (String c ds) = true)
      by (simpl; by rewrite Hc, Hds).
    pose proof (parseInt_number_to_string z Hz) as Hparse.
    unfold updateHash. rewrite Hstr in *.
    set (param := match selected with
                  | Some e => if String.eqb (type e) "pdf" then "page" else "scroll"
                  | None => "scroll"
                  end).
    assert (Hparam : param = "scroll" ∨ param = "page").
    { unfold param. destruct selected as [e|]; [|by left].
      destruct (String.eqb (type e) "pdf"); [by right|by left]. }
    clearbody param.
    set (query := param +:+ "=" +:+ String c ds).
    assert (Hquery : ∃ q qs, query = String q qs).
    { unfold query. destruct Hparam as [-> | ->]; simpl; eauto. }
    assert (Hqplain : all_chars (is_not "?") query = true).
    { unfold query.
      rewrite !all_chars_append,
        (form_plain_is_not "?" _ eq_refl (digit_form_plain _ Hall)).
      by destruct Hparam as [-> | ->]. }
    rewrite replaceState_fragment_plain; cycle 1.
    { rewrite !all_chars_append, Hfrag. fold query.
      change (all_chars frag_plain ("?" +:+ query))
        with (all_chars frag_plain query).
      unfold query. rewrite !all_chars_append, (digit_frag_plain _ Hall).
      by destruct Hparam as [-> | ->]. }
    fold query.
    change ("?" +:+ query) with (String "?" query).
    assert (Hsplit : split "?" (encodeURIComponent p +:+ String "?" query)
                     = [encodeURIComponent p; query]).
    { rewrite (split_at "?" _ _ Hnoq). f_equal.
      apply split_plain, Hqplain. }
    assert (Hparams : URLSearchParams query = [(param, String c ds)]).
    { unfold query. destruct Hparam as [-> | ->];
        apply URLSearchParams_single; (reflexivity || by apply digit_form_plain). }
    destruct (encodeURIComponent p +:+ String "?" query) as [|h hs] eqn:Hhash.
    { destruct (encodeURIComponent p); discriminate Hhash. }
    unfold parseHash, location_hash. cbn [slice1].
    rewrite Hsplit. cbn [lookup list_lookup default]. unfold id.
    rewrite (decode_encode p Hp).
    destruct Hquery as (q & qs & Hq). rewrite Hq in *. cbn [truthy].
    rewrite Hparams.
    destruct Hparam as [-> | ->]; simpl; by rewrite Hparse.
  - unfold updateHash. rewrite (replaceState_fragment_plain _ Hfrag).
    destruct (encodeURIComponent p) as [|h hs] eqn:Hhash.
    + destruct p as [|c p]; [reflexivity|].
      exfalso. change (encodeURIComponent (String c p))
        with (encode_char c +:+ encodeURIComponent p) in Hhash.
      revert Hhash. each_ascii c; discriminate.
    + unfold parseHash, location_hash. cbn [slice1].
      rewrite (split_plain "?" _ Hnoq). cbn [lookup list_lookup default]. unfold id.
      rewrite <- Hhash, (decode_encode p Hp). reflexivity.
Qed.

Lemma hash_round_trip_witness :
  parseHash (updateHash (Some Sample.doc_pdf) "documents/A/B/doc.pdf" (Some (Num 12)))
  = Returns {| hs_path := "documents/A/B/doc.pdf"; hs_scroll := Some (Num 12) |}.
Proof.
  apply (hash_round_trip (Some Sample.doc_pdf) "documents/A/B/doc.pdf" (Some (Num 12))).
  - reflexivity.
  - exists 12%Z. split; [reflexivity|]. unfold MAX_SAFE_INTEGER. lia.
Defined.

Example parseInt_samples :
  parseInt "  42px" = Num 42 ∧ parseInt "-7" = Num (-7) ∧ parseInt "+" = NaN
  ∧ parseInt EmptyString = NaN ∧ parseInt "12.5" = Num 12 ∧ parseInt "abc" = NaN.
Proof. repeat split. Qed.

Example decodeURIComponent_samples :
  decodeURIComponent "%C3%A9t%C3%A9" = Some "été"
  ∧ decodeURIComponent "%E2%82%AC" = Some "€"
  ∧ decodeURIComponent "a%2Fb" = Some "a/b"
  ∧ decodeURIComponent "%C0%80" = None
  ∧ decodeURIComponent "%ED%A0%80" = None
  ∧ decodeURIComponent "%E2%82" = None
  ∧ decodeURIComponent "100%" = None.
Proof. repeat split. Qed.

Example encodeURIComponent_samples :
  encodeURIComponent "a b/c?d=é" = "a%20b%2Fc%3Fd%3D%C3%A9"
  ∧ encodeURIComponent "-_.!~*'()" = "-_.!~*'()".
Proof. repeat split. Qed.

Example parseHash_page :
  parseHash "#documents%2FALLN-346%2Ffoo.pdf?page=12"
  = Returns {| hs_path := "documents/ALLN-346/foo.pdf"; hs_scroll := Some (Num 12) |}.
Proof. reflexivity. Qed.

Example parseHash_empty_scroll_falls_to_page :
  parseHash "#a?scroll=&page=7"
  = Returns {| hs_path := "a"; hs_scroll := Some (Num 7) |}.
Proof. reflexivity. Qed.

Example parseHash_no_hash :
  parseHash EmptyString = Returns {| hs_path := EmptyString; hs_scroll := None |}.
Proof. reflexivity. Qed.

Example parseHash_malformed_escape : parseHash "#%zz" = URIError.
Proof. reflexivity. Qed.

Example updateHash_scroll :
  updateHash None "documents/ALLN-346/a b.pdf" (Some (Num 120))
  = "#documents%2FALLN-346%2Fa%20b.pdf?scroll=120".
Proof. reflexivity. Qed.

End Hash.

(** ** The page of the PDF viewer *)

Section Pages.

Import Js PdfViewer.

(** [loadPdf] clamps an integer initial page into the range. *)
Lemma loadPdf_in_range (initialPage numPages : Z) :
  (1 ≤ numPages)%Z →
  page_in_range (loadPdf (Num numPages) (init (Num initialPage))).
Proof.
  intros Hn. unfold page_in_range, loadPdf, init, gt, lt. simpl.
  destruct (Z.ltb_spec initialPage 1).
  - destruct (Z.ltb_spec numPages 1); [lia|].
    exists 1%Z, numPages. repeat split; lia.
  - destruct (Z.ltb_spec numPages initialPage).
    + exists numPages, numPages. repeat split; lia.
    + exists initialPage, numPages. repeat split; lia.
Qed.

(** For integer page numbers [goToPage] keeps the page in range, and an
    out-of-range request changes nothing. *)
Lemma goToPage_integer (pageNum : Z) (st : State) :
  page_in_range st →
  page_in_range (goToPage (Num pageNum) st)
  ∧ (∀ n, totalPages st = Num n → (pageNum < 1 ∨ n < pageNum)%Z →
          goToPage (Num pageNum) st = st).
Proof.
  intros (p & n & Hp & Hn & Hr). unfold goToPage, gt, lt. rewrite Hn.
  destruct (pdf st); simpl.
  - destruct (Z.ltb_spec pageNum 1); simpl.
    + split; [by exists p, n|]. reflexivity.
    + destruct (Z.ltb_spec n pageNum); simpl.
      * split; [by exists p, n|]. reflexivity.
      * split; [exists pageNum, n; repeat split; simpl; (done || lia)|].
        intros n' [= <-] Hout. lia.
  - split; [by exists p, n|]. reflexivity.
Qed.

Lemma prevPage_in_range (st : State) :
  page_in_range st → page_in_range (prevPage st).
Proof.
  intros Hst. destruct (Hst) as (p & n & Hp & _). unfold prevPage.
  rewrite Hp. simpl. by apply goToPage_integer.
Qed.

Lemma nextPage_in_range (st : State) :
  page_in_range st → page_in_range (nextPage st).
Proof.
  intros Hst. destruct (Hst) as (p & n & Hp & _). unfold nextPage.
  rewrite Hp. simpl. by apply goToPage_integer.
Qed.

(** C10 does not hold of the code: in a viewer that has loaded a
    three-page document and shows page 1, [goToPage(NaN)] (what the page
    box sends when it is emptied, [parseInt] of the empty string being
    [NaN]) passes both range tests and sets [currentPage] to [NaN]; the
    page is then no longer between 1 and [totalPages], and [prevPage]
    and [nextPage] keep it at [NaN]. *)
Theorem goToPage_NaN_leaves_range :
  let st := loadPdf (Num 3) (init (Num 1)) in
  page_in_range st
  ∧ parseInt EmptyString = NaN
  ∧ goToPage NaN st = MkState true NaN (Num 3)
  ∧ ¬ page_in_range (goToPage NaN st)
  ∧ currentPage (nextPage (goToPage NaN st)) = NaN
  ∧ currentPage (prevPage (goToPage NaN st)) = NaN.
Proof.
  repeat split.
  - exists 1%Z, 3%Z. repeat split; (reflexivity || lia).
  - intros (p & n & Hp & _). discriminate Hp.
Qed.

Example loadPdf_clamps_above :
  loadPdf (Num 5) (init (Num 9)) = MkState true (Num 5) (Num 5).
Proof. reflexivity. Qed.

Example loadPdf_clamps_below :
  loadPdf (Num 5) (init (Num 0)) = MkState true (Num 1) (Num 5).
Proof. reflexivity. Qed.

Example nextPage_at_last_page :
  nextPage (MkState true (Num 5) (Num 5)) = MkState true (Num 5) (Num 5).
Proof. reflexivity. Qed.

End Pages.

(** ** Links written and read by the page *)

Section Links.

Import Js Uri Page App.

(** Case analysis over the 256 characters. *)
Ltac by_character c :=
  destruct c as [[] [] [] [] [] [] [] []].

Lemma encodeURIComponent_nonempty (c : ascii) (p : string) :
  encodeURIComponent (String c p) ≠ EmptyString.
Proof.
  change (encodeURIComponent (String c p))
    with (encode_char c +:+ encodeURIComponent p).
  by_character c; discriminate.
Qed.

(** What [parseHash] reads off the fragment [updateHash] leaves: the
    path and the scroll value it was given. *)
Lemma parseHash_reads_updateHash (selected : option TocEntry) (p : string)
    (scroll : option number) :
  valid_utf8 p = true →
  match scroll with
  | Some n => ∃ z, n = Num z ∧ (0 ≤ z)%Z
  | None => True
  end →
  parseHash (updateHash selected p scroll)
  = Returns {| hs_path := p; hs_scroll := scroll |}.
Proof.
  intros Hp Hscroll.
  pose proof (encodeURIComponent_plain p) as Henc.
  assert (Hfrag : all_chars frag_plain (encodeURIComponent p) = true).
  { revert Henc. apply all_chars_impl. by intros c [? _]%andb_prop. }
  assert (Hnoq : all_chars (is_not "?") (encodeURIComponent p) = true).
  { revert Henc. apply all_chars_impl. by intros c [_ ?]%andb_prop. }
  destruct scroll as [n|].
  - destruct Hscroll as (z & -> & Hz).
    destruct (decimal_value z Hz) as (c & ds & Hstr & Hc & Hds & Hv).
    assert (Hall : all_chars is_digit (String c ds) = true)
      by (simpl; by rewrite Hc, Hds).
    pose proof (parseInt_number_to_string z Hz) as Hparse.
    unfold updateHash. rewrite Hstr in *.
    set (param := match selected with
                  | Some e => if String.eqb (type e) "pdf" then "page" else "scroll"
                  | None => "scroll"
                  end).
    assert (Hparam : param = "scroll" ∨ param = "page").
    { unfold param. destruct selected as [e|]; [|by left].
      destruct (String.eqb (type e) "pdf"); [by right|by left]. }
    clearbody param.
    set (query := param +:+ "=" +:+ String c ds).
    assert (Hquery : ∃ q qs, query = String q qs).
    { unfold query. destruct Hparam as [-> | ->]; simpl; eauto. }
    assert (Hqplain : all_chars (is_not "?") query = true).
    { unfold query.
      rewrite !all_chars_append,
        (form_plain_is_not "?" _ eq_refl (digit_form_plain _ Hall)).
      by destruct Hparam as [-> | ->]. }
    rewrite replaceState_fragment_plain; cycle 1.
    { rewrite !all_chars_append, Hfrag. fold query.
      change (all_chars frag_plain ("?" +:+ query))
        with (all_chars frag_plain query).
      unfold query. rewrite !all_chars_append, (digit_frag_plain _ Hall).
      by destruct Hparam as [-> | ->]. }
    fold query.
    change ("?" +:+ query) with (String "?" query).
    assert (Hsplit : split "?" (encodeURIComponent p +:+ String "?" query)
                     = [encodeURIComponent p; query]).
    { rewrite (split_at "?" _ _ Hnoq). f_equal.
      apply split_plain, Hqplain. }
    assert (Hparams : URLSearchParams query = [(param, String c ds)]).
    { unfold query. destruct Hparam as [-> | ->];
        apply URLSearchParams_single; (reflexivity || by apply digit_form_plain). }
    destruct (encodeURIComponent p +:+ String "?" query) as [|h hs] eqn:Hhash.
    { destruct (encodeURIComponent p); discriminate Hhash. }
    unfold parseHash, location_hash. cbn [slice1].
    rewrite Hsplit. cbn [lookup list_lookup default]. unfold id.
    rewrite (decode_encode p Hp).
    destruct Hquery as (q & qs & Hq). rewrite Hq in *. cbn [truthy].
    rewrite Hparams.
    destruct Hparam as [-> | ->]; simpl; by rewrite Hparse.
  - unfold updateHash. rewrite (replaceState_fragment_plain _ Hfrag).
    destruct (encodeURIComponent p) as [|h hs] eqn:Hhash.
    + destruct p as [|c p]; [reflexivity|].
      by destruct (encodeURIComponent_nonempty c p).
    + unfold parseHash, location_hash. cbn [slice1].
      rewrite (split_plain "?" _ Hnoq). cbn [lookup list_lookup default]. unfold id.
      rewrite <- Hhash, (decode_encode p Hp). reflexivity.
Qed.

(** In a tree with unique paths the resolver returns the very node. *)
Lemma findEntryByPath_unique (root entry : TocEntry) :
  entry ∈ flatten root →
  NoDup (path <$> flatten root) →
  findEntryByPath root (path entry) = Some entry.
Proof.
  intros Hin Hnd. rewrite findEntryByPath_find.
  destruct (find _ (flatten root)) as [found|] eqn:Hf.
  - apply find_some in Hf as [Hin' Heq].
    apply String.eqb_eq in Heq. apply list_elem_of_In in Hin'.
    f_equal.
    apply list_elem_of_lookup in Hin as [i Hi].
    apply list_elem_of_lookup in Hin' as [j Hj].
    assert (j = i) as ->.
    { eapply NoDup_lookup; [exact Hnd| |].
      - rewrite list_lookup_fmap, Hj. reflexivity.
      - rewrite list_lookup_fmap, Hi. simpl. congruence. }
    congruence.
  - apply list_elem_of_In in Hin.
    pose proof (find_none _ _ Hf entry Hin) as Hne. simpl in Hne.
    rewrite String.eqb_refl in Hne. discriminate.
Qed.

(** A link written for an entry of the tree opens that entry. *)
Lemma handleHashChange_link (st : PageState) (root entry : TocEntry)
    (selected : option TocEntry) (scroll : option number) :
  toc st = Some root →
  entry ∈ flatten root →
  NoDup (path <$> flatten root) →
  path entry ≠ EmptyString →
  valid_utf8 (path entry) = true →
  match scroll with
  | Some n => ∃ z, n = Num z ∧ (0 ≤ z)%Z
  | None => True
  end →
  handleHashChange (updateHash selected (path entry) scroll) st
  = Returns (MkPageState (Some root) (Some entry)
               (getParentPaths (path entry)) scroll).
Proof.
  intros Htoc Hin Hnd Hne Hvalid Hscroll.
  unfold handleHashChange.
  rewrite (parseHash_reads_updateHash selected _ scroll Hvalid Hscroll), Htoc.
  destruct (path entry) as [|c p] eqn:Hpath; [by destruct Hne|].
  rewrite <- Hpath, (findEntryByPath_unique root entry Hin Hnd).
  reflexivity.
Qed.

(** X1. A link copied after a selection or after scrolling reopens the
    same view: when the page is mounted afresh at the hash left by
    [selectDocument], or by [handleScrollChange] while an entry is
    selected, it selects that entry, restores the scroll position and
    expands the entry's parent paths.  The entry is one of a tree with
    unique paths, its path is a non-empty well-formed string and the
    scroll value a non-negative integer in the exact range. *)
Theorem copied_link_reopens_view (root entry : TocEntry) (s : Session)
    (z : Z) (prefersDark : bool) (classes : gset string) :
  entry ∈ flatten root →
  NoDup (path <$> flatten root) →
  path entry ≠ EmptyString →
  valid_utf8 (path entry) = true →
  (0 ≤ z ≤ MAX_SAFE_INTEGER)%Z →
  page (onMount root prefersDark (initial (hash (selectDocument entry s)) classes))
  = MkPageState (Some root) (Some entry) (getParentPaths (path entry)) None
  ∧ (selectedEntry (page s) = Some entry →
     page (onMount root prefersDark
             (initial (hash (handleScrollChange (Num z) s)) classes))
     = MkPageState (Some root) (Some entry) (getParentPaths (path entry))
         (Some (Num z))).
Proof.
  intros Hin Hnd Hne Hvalid Hz. split.
  - unfold onMount, initial, selectDocument.
    cbn [hash page selectedEntry expandedPaths scrollPosition].
    rewrite (handleHashChange_link (MkPageState (Some root) None ∅ None)
               root entry (Some entry) None eq_refl Hin Hnd Hne Hvalid I).
    reflexivity.
  - intros Hsel. unfold onMount, initial, handleScrollChange. rewrite Hsel.
    cbn [hash page selectedEntry expandedPaths scrollPosition].
    rewrite (handleHashChange_link (MkPageState (Some root) None ∅ None)
               root entry (Some entry) (Some (Num z)) eq_refl Hin Hnd Hne Hvalid).
    + reflexivity.
    + exists z. split; [reflexivity|lia].
Qed.

Lemma sample_paths_unique : NoDup (path <$> flatten Sample.full_tree).
Proof. apply (bool_decide_unpack _). vm_compute. exact I. Qed.

Lemma sample_doc_pdf_listed : Sample.doc_pdf ∈ flatten Sample.full_tree.
Proof. apply list_elem_of_In. vm_compute. tauto. Qed.

Lemma copied_link_reopens_view_witness :
  page (onMount Sample.full_tree false
          (initial (hash (selectDocument Sample.doc_pdf (initial EmptyString ∅))) ∅))
  = MkPageState (Some Sample.full_tree) (Some Sample.doc_pdf)
      (getParentPaths "documents/A/B/doc.pdf") None
  ∧ page (onMount Sample.full_tree false
            (initial (hash (handleScrollChange (Num 12)
                              (selectDocument Sample.doc_pdf (initial EmptyString ∅))))
               ∅))
    = MkPageState (Some Sample.full_tree) (Some Sample.doc_pdf)
        (getParentPaths "documents/A/B/doc.pdf") (Some (Num 12)).
Proof.
  assert (Hz : (0 ≤ 12 ≤ MAX_SAFE_INTEGER)%Z) by (unfold MAX_SAFE_INTEGER; lia).
  pose proof (copied_link_reopens_view Sample.full_tree Sample.doc_pdf
                (selectDocument Sample.doc_pdf (initial EmptyString ∅)) 12 false ∅
                sample_doc_pdf_listed sample_paths_unique
                ltac:(discriminate) eq_refl Hz) as [H1 H2].
  split; [exact H1|exact (H2 eq_refl)].
Defined.

(** X2. When the page is opened at a hash whose path part does not
    decode, [onMount] loads the tree and stops at the [URIError]: the
    [hashchange] listener is never installed and the dark-mode
    preference is not applied, so no later hash change selects
    anything. *)
Theorem undecodable_initial_hash_stops_onMount (root : TocEntry)
    (prefersDark : bool) (h : string) (classes : gset string) :
  parseHash h = URIError →
  let s := onMount root prefersDark (initial h classes) in
  page s = MkPageState (Some root) None ∅ None
  ∧ listening s = false
  ∧ darkMode s = false
  ∧ classList s = classes
  ∧ ∀ evs, Forall (λ ev, ∃ h', ev = HashChanged h') evs →
           page (run s evs) = page s.
Proof.
  intros Hparse. unfold onMount, initial, handleHashChange.
  cbn [hash page selectedEntry expandedPaths scrollPosition].
  rewrite Hparse. cbn zeta. repeat split.
  intros evs Hevs.
  set (s := MkSession _ _ _ _ _ _).
  assert (Hrun : ∀ s', listening s' = false → page (run s' evs) = page s').
  { clear s. induction Hevs as [|ev evs (h' & ->) _ IH]; intros s' Hs'.
    - reflexivity.
    - simpl. rewrite IH.
      + unfold hashChanged. by rewrite Hs'.
      + exact Hs'. }
  by apply Hrun.
Qed.

Lemma undecodable_initial_hash_stops_onMount_witness :
  let s := onMount Sample.full_tree true (initial "#%E9t%E9" ∅) in
  page s = MkPageState (Some Sample.full_tree) None ∅ None
  ∧ listening s = false
  ∧ darkMode s = false
  ∧ classList s = ∅
  ∧ ∀ evs, Forall (λ ev, ∃ h', ev = HashChanged h') evs →
           page (run s evs) = page s.
Proof.
  exact (undecodable_initial_hash_stops_onMount Sample.full_tree true
           "#%E9t%E9" ∅ eq_refl).
Defined.

(** The node [handleHashChange] selects comes from the tree. *)
Lemma findEntryByPath_listed (root found : TocEntry) (p : string) :
  findEntryByPath root p = Some found → found ∈ flatten root ∧ path found = p.
Proof.
  rewrite findEntryByPath_find. intros Hf.
  apply find_some in Hf as [Hin Heq]. split.
  - by apply list_elem_of_In.
  - by apply String.eqb_eq.
Qed.

(** X3. Whatever the user and the browser do to a mounted page (hash
    changes, selections of entries of the tree, scrolling, going home,
    toggling the theme or the menu), the tree is never replaced and the
    selected entry, when there is one, is a node of the tree. *)
Theorem selection_stays_in_tree (root : TocEntry) (evs : list Event)
    (s : Session) :
  toc (page s) = Some root →
  (∀ e, selectedEntry (page s) = Some e → e ∈ flatten root) →
  Forall (selects_from root) evs →
  toc (page (run s evs)) = Some root
  ∧ (∀ e, selectedEntry (page (run s evs)) = Some e → e ∈ flatten root)
  ∧ listening (run s evs) = listening s.
Proof.
  intros Htoc Hsel Hevs. revert s Htoc Hsel.
  induction Hevs as [|ev evs Hev _ IH]; intros s Htoc Hsel; [by repeat split|].
  assert (Hstep : toc (page (step s ev)) = Some root
                  ∧ (∀ e, selectedEntry (page (step s ev)) = Some e →
                          e ∈ flatten root)
                  ∧ listening (step s ev) = listening s).
  { destruct ev as [h|entry|scroll| | | |]; simpl;
      try (by repeat split).
    - unfold hashChanged. destruct (listening s); [|by repeat split].
      unfold handleHashChange.
      destruct (parseHash h) as [[p scroll]|]; [|by repeat split].
      rewrite Htoc.
      destruct p as [|c p]; [by repeat split|].
      destruct (findEntryByPath root (String c p)) as [found|] eqn:Hf;
        [|by repeat split].
      apply findEntryByPath_listed in Hf as [Hin _].
      split; [reflexivity|]. split; [|reflexivity].
      by intros e [= <-].
    - split; [exact Htoc|]. split; [|reflexivity].
      intros e [= <-]. exact Hev. }
  destruct Hstep as (Htoc' & Hsel' & Hl).
  destruct (IH (step s ev) Htoc' Hsel') as (H1 & H2 & H3).
  change (run s (ev :: evs)) with (run (step s ev) evs).
  split; [exact H1|]. split; [exact H2|]. by rewrite H3.
Qed.

Lemma selection_stays_in_tree_witness :
  let s := onMount Sample.full_tree false (initial EmptyString ∅) in
  let evs := [Select Sample.doc_pdf; Scrolled (Num 3);
              HashChanged "#documents%2FREADME.md"; ToggleDark; Home] in
  toc (page (run s evs)) = Some Sample.full_tree
  ∧ (∀ e, selectedEntry (page (run s evs)) = Some e → e ∈ flatten Sample.full_tree)
  ∧ listening (run s evs) = listening s.
Proof.
  apply (selection_stays_in_tree Sample.full_tree).
  - reflexivity.
  - discriminate.
  - repeat constructor.
Defined.

(** X4. Handling the same hash a second time changes nothing more. *)
Theorem handleHashChange_idempotent (h : string) (st st' : PageState) :
  handleHashChange h st = Returns st' →
  handleHashChange h st' = Returns st'.
Proof.
  unfold handleHashChange.
  destruct (parseHash h) as [[p scroll]|]; [|discriminate].
  destruct p as [|c p].
  - intros [= <-]. reflexivity.
  - destruct (toc st) as [root|] eqn:Htoc.
    + destruct (findEntryByPath root (String c p)) as [found|] eqn:Hf;
        intros [= <-]; simpl; rewrite ?Htoc, ?Hf; reflexivity.
    + intros [= <-]. simpl. rewrite ?Htoc. reflexivity.
Qed.

Lemma handleHashChange_idempotent_witness :
  handleHashChange "#documents%2FA%2FB%2Fdoc.pdf?page=2"
    (MkPageState (Some Sample.full_tree) (Some Sample.doc_pdf)
       (getParentPaths "documents/A/B/doc.pdf") (Some (Num 2)))
  = Returns (MkPageState (Some Sample.full_tree) (Some Sample.doc_pdf)
               (getParentPaths "documents/A/B/doc.pdf") (Some (Num 2))).
Proof.
  apply (handleHashChange_idempotent "#documents%2FA%2FB%2Fdoc.pdf?page=2"
           (MkPageState (Some Sample.full_tree) None ∅ None)).
  vm_compute. reflexivity.
Defined.

(** X5. A hash that does not decode, or whose path no node of the tree
    carries, never changes the selection or the expanded folders: the
    page keeps showing what it showed. *)
Theorem unresolved_hash_keeps_view (root : TocEntry) (h : string) (s : Session) :
  toc (page s) = Some root →
  (parseHash h = URIError
   ∨ ∃ p scroll, parseHash h = Returns (MkHashState p scroll)
                 ∧ ∀ n, n ∈ flatten root → path n ≠ p) →
  selectedEntry (page (hashChanged h s)) = selectedEntry (page s)
  ∧ expandedPaths (page (hashChanged h s)) = expandedPaths (page s)
  ∧ toc (page (hashChanged h s)) = toc (page s).
Proof.
  intros Htoc Hh. unfold hashChanged.
  destruct (listening s); [|by repeat split].
  unfold handleHashChange.
  destruct Hh as [-> | (p & scroll & -> & Hfresh)]; [by repeat split|].
  rewrite Htoc. destruct p as [|c p]; [by repeat split|].
  destruct (findEntryByPath root (String c p)) as [found|] eqn:Hf;
    [|by repeat split].
  apply findEntryByPath_listed in Hf as [Hin Hp].
  destruct (Hfresh found Hin Hp).
Qed.

Lemma unresolved_hash_keeps_view_witness :
  let s := selectDocument Sample.doc_pdf
             (onMount Sample.full_tree false (initial EmptyString ∅)) in
  selectedEntry (page (hashChanged "#%" s)) = Some Sample.doc_pdf
  ∧ expandedPaths (page (hashChanged "#%" s)) = ∅
  ∧ toc (page (hashChanged "#%" s)) = Some Sample.full_tree.
Proof.
  exact (unresolved_hash_keeps_view Sample.full_tree "#%"
           (selectDocument Sample.doc_pdf
              (onMount Sample.full_tree false (initial EmptyString ∅)))
           eq_refl (or_introl eq_refl)).
Defined.

(** X6. [toggleDarkMode] leaves the class [dark] on the document
    element exactly in dark mode and touches no other class; from a
    state where class and flag agree, toggling twice restores both. *)
Theorem toggleDarkMode_in_sync (s : Session) :
  dark_in_sync (toggleDarkMode s)
  ∧ (∀ c, c ≠ "dark" → c ∈ classList (toggleDarkMode s) ↔ c ∈ classList s)
  ∧ (dark_in_sync s → toggleDarkMode (toggleDarkMode s) = s).
Proof.
  unfold dark_in_sync, toggleDarkMode, updateDarkMode.
  destruct s as [pg h menu dark classes l]. simpl.
  split; [|split].
  - destruct dark; simpl.
    + rewrite elem_of_difference, elem_of_singleton. split; [tauto|discriminate].
    + rewrite elem_of_union, elem_of_singleton. split; [done|auto].
  - intros c Hc. destruct dark; simpl.
    + rewrite elem_of_difference, elem_of_singleton. tauto.
    + rewrite elem_of_union, elem_of_singleton. tauto.
  - intros Hsync. destruct dark; simpl; f_equal.
    + assert (Hin : "dark" ∈ classes) by tauto.
      apply set_eq. intros c.
      rewrite elem_of_union, elem_of_difference, elem_of_singleton.
      destruct (decide (c = "dark")) as [->|]; tauto.
    + assert (Hout : "dark" ∉ classes) by (intros Hin; apply Hsync in Hin; discriminate).
      apply set_eq. intros c.
      rewrite elem_of_difference, elem_of_union, elem_of_singleton.
      destruct (decide (c = "dark")) as [->|]; tauto.
Qed.

End Links.

(** ** Parent paths and the folders above a node *)

Section Ancestors.

Import Js Page App.

Lemma getParentPaths_elem (filePath s : string) :
  s ∈ getParentPaths filePath
  ↔ ∃ i, (1 ≤ i < length (split "/" filePath))%nat
         ∧ s = join "/" (take i (split "/" filePath)).
Proof.
  unfold getParentPaths.
  rewrite collect_paths, elem_of_union, elem_of_list_to_set, list_elem_of_fmap.
  split.
  - intros [Hempty|(i & -> & Hi)]; [by apply not_elem_of_empty in Hempty|].
    apply elem_of_seq in Hi. exists i. split; [lia|reflexivity].
  - intros (i & Hi & ->). right. exists i. split; [reflexivity|].
    apply elem_of_seq. lia.
Qed.

Lemma split_append (sep : ascii) (a b : string) :
  split sep (a +:+ String sep b) = split sep a ++ split sep b.
Proof.
  induction a as [|c a IH]; simpl.
  - by rewrite Ascii.eqb_refl.
  - destruct (Ascii.eqb c sep); [by rewrite IH|].
    rewrite IH. destruct (split_cons sep a) as (w & ws & ->). reflexivity.
Qed.

(** Appending a segment adds the path itself to the parent paths. *)
Lemma getParentPaths_child (p nm s : string) :
  all_chars (is_not "/") nm = true →
  s ∈ getParentPaths (p +:+ "/" +:+ nm) ↔ s ∈ getParentPaths p ∨ s = p.
Proof.
  intros Hnm. rewrite !getParentPaths_elem.
  change ("/" +:+ nm) with (String "/" nm).
  rewrite split_append, (split_plain "/" nm Hnm), length_app. simpl.
  pose proof (join_split "/" p) as Hjoin.
  split.
  - intros (i & Hi & ->).
    destruct (decide (i = length (split "/" p))) as [->|Hne].
    + right. by rewrite take_app_length.
    + left. exists i. split; [lia|].
      rewrite take_app_le by lia. reflexivity.
  - intros [(i & Hi & ->)| ->].
    + exists i. split; [lia|]. rewrite take_app_le by lia. reflexivity.
    + exists (length (split "/" p)). split.
      * destruct (split_cons "/" p) as (w & ws & ->). simpl. lia.
      * by rewrite take_app_length.
Qed.

Lemma hierarchical_child (e k : TocEntry) (kids : list TocEntry) (i : nat) :
  hierarchical e → children e = Some kids → kids !! i = Some k →
  path k = path e +:+ "/" +:+ name k
  ∧ all_chars (is_not "/") (name k) = true
  ∧ hierarchical k.
Proof.
  intros He Hkids Hi.
  destruct e as [nm t q ch r u ti su tg d]. simpl in *. subst ch.
  revert i Hi. induction kids as [|k' kids IH]; intros i Hi; [discriminate|].
  destruct He as [Hk Hrest]. destruct i as [|i]; simpl in Hi.
  - by injection Hi as <-.
  - by apply (IH Hrest i).
Qed.

(** X7. In a tree whose paths follow the hierarchy (each child's path
    is its parent's path, a slash and its slash-free name) below a root
    path of one segment, the parent paths of a node are exactly the
    paths of the nodes above it: a deep link expands every folder on the
    way to the document and nothing else. *)
Theorem getParentPaths_are_ancestors (root N : TocEntry) (pos : list nat) :
  hierarchical root →
  all_chars (is_not "/") (path root) = true →
  toc_at pos root = Some N →
  ∀ s, s ∈ getParentPaths (path N)
       ↔ ∃ a, a ∈ ancestors_at pos root ∧ path a = s.
Proof.
  intros Hroot Hseg HN s.
  assert (Hgen : ∀ pos e, hierarchical e → toc_at pos e = Some N →
            (s ∈ getParentPaths (path N)
             ↔ s ∈ getParentPaths (path e)
               ∨ ∃ a, a ∈ ancestors_at pos e ∧ path a = s)).
  { clear. induction pos as [|i pos IH]; intros e He HN.
    - injection HN as <-. simpl. split; [auto|].
      intros [H|(a & Ha & _)]; [exact H|by apply elem_of_nil in Ha].
    - simpl in HN. simpl.
      destruct (children e) as [kids|] eqn:Hkids; [|discriminate].
      destruct (kids !! i) as [k|] eqn:Hk; [|discriminate].
      destruct (hierarchical_child e k kids i He Hkids Hk) as (Hpath & Hname & Hkh).
      rewrite (IH k Hkh HN), Hpath, (getParentPaths_child _ _ _ Hname).
      split.
      + intros [[H| ->]|(a & Ha & Hp)].
        * by left.
        * right. exists e. split; [left|reflexivity].
        * right. exists a. split; [by right|exact Hp].
      + intros [H|(a & Ha & Hp)]; [by left; left|].
        apply elem_of_cons in Ha as [->|Ha].
        * left. right. by symmetry.
        * right. eauto. }
  rewrite (Hgen pos root Hroot HN).
  split; [|auto]. intros [H|H]; [|exact H].
  apply getParentPaths_elem in H as (i & Hi & _).
  rewrite (split_plain "/" _ Hseg) in Hi. simpl in Hi. lia.
Qed.

Lemma sample_hierarchical : hierarchical Sample.full_tree.
Proof. vm_compute. repeat split. Qed.

Lemma getParentPaths_are_ancestors_witness :
  "documents/A" ∈ getParentPaths "documents/A/B/doc.pdf"
  ↔ ∃ a, a ∈ ancestors_at [0; 0; 0]%nat Sample.full_tree
         ∧ path a = "documents/A".
Proof.
  exact (getParentPaths_are_ancestors Sample.full_tree Sample.doc_pdf
           [0; 0; 0]%nat sample_hierarchical eq_refl eq_refl "documents/A").
Defined.

End Ancestors.

(** ** What the document viewer is handed *)

Section Viewer.

Import Js Uri Page App DocumentView.

Lemma append_assoc (a b c : string) : (a +:+ b) +:+ c = a +:+ b +:+ c.
Proof.
  induction a as [|x a IH]; [reflexivity|].
  change (String x ((a +:+ b) +:+ c) = String x (a +:+ b +:+ c)).
  by rewrite IH.
Qed.

Lemma getViewerType_pdf (t : string) :
  getViewerType t = pdf_viewer ↔ t = "pdf".
Proof.
  unfold getViewerType. destruct (String.eqb_spec t "pdf") as [->|Hne].
  - done.
  - split; [|done].
    repeat match goal with
           | |- context [if ?b then _ else _] => destruct b
           end; discriminate.
Qed.

(** X8. The URL the viewer loads is a slash and the entry's path; the
    fragment [#page=N] is added exactly for a [pdf] entry with a
    non-zero integer position [N].  A position that is null, 0 or [NaN]
    adds nothing, and for every other type the URL and what is rendered
    do not depend on the position at all. *)
Theorem fileUrl_page_fragment (e : TocEntry) (position : option number) :
  (type e = "pdf" →
   ∀ z, z ≠ 0%Z →
        fileUrl (Some e) (Some (Num z))
        = Some ("/" +:+ path e +:+ "#page=" +:+ number_to_string (Num z)))
  ∧ (type e ≠ "pdf" ∨ position = None ∨ position = Some NaN
     ∨ position = Some (Num 0) →
     fileUrl (Some e) position = Some ("/" +:+ path e))
  ∧ (type e ≠ "pdf" → render (Some e) position = render (Some e) None).
Proof.
  pose proof append_assoc as Hassoc.
  split; [|split].
  - intros Ht z Hz. unfold fileUrl.
    rewrite (proj2 (getViewerType_pdf (type e)) Ht). simpl.
    destruct (Z.eqb_spec z 0) as [->|_]; [by destruct Hz|]. simpl.
    change (String "/" (path e)) with ("/" +:+ path e).
    by rewrite Hassoc.
  - intros Hcase. unfold fileUrl.
    destruct (getViewerType (type e)) eqn:Hv; try reflexivity.
    apply getViewerType_pdf in Hv.
    destruct Hcase as [Hne | [-> | [-> | ->]]]; [by destruct Hne|reflexivity..].
  - intros Hne. unfold render, fileUrl.
    destruct (getViewerType (type e)) eqn:Hv;
      try (by destruct position).
    apply getViewerType_pdf in Hv. by destruct Hne.
Qed.

(** The fragment [updateHash] leaves for a position. *)
Lemma updateHash_position (selected : option TocEntry) (p : string) (z : Z) :
  (0 ≤ z)%Z →
  updateHash selected p (Some (Num z))
  = "#" +:+ encodeURIComponent p +:+ "?"
    +:+ match selected with
        | Some e => if String.eqb (type e) "pdf" then "page" else "scroll"
        | None => "scroll"
        end +:+ "=" +:+ number_to_string (Num z).
Proof.
  intros Hz.
  destruct (decimal_value z Hz) as (c & ds & Hstr & Hc & Hds & _).
  assert (Hall : all_chars is_digit (String c ds) = true)
    by (simpl; by rewrite Hc, Hds).
  pose proof (encodeURIComponent_plain p) as Henc.
  assert (Hfrag : all_chars frag_plain (encodeURIComponent p) = true).
  { revert Henc. apply all_chars_impl. by intros x [? _]%andb_prop. }
  unfold updateHash. rewrite Hstr.
  set (param := match selected with
                | Some e => if String.eqb (type e) "pdf" then "page" else "scroll"
                | None => "scroll"
                end).
  assert (Hparam : all_chars frag_plain param = true).
  { unfold param. destruct selected as [e|]; [|reflexivity].
    destruct (String.eqb (type e) "pdf"); reflexivity. }
  rewrite replaceState_fragment_plain.
  - unfold location_hash.
    destruct (encodeURIComponent p +:+ "?" +:+ param +:+ "=" +:+ String c ds)
      eqn:Hh; [|reflexivity].
    destruct (encodeURIComponent p); discriminate Hh.
  - rewrite !all_chars_append, Hfrag, Hparam, (digit_frag_plain _ Hall).
    reflexivity.
Qed.

(** X9. A page link to a PDF reaches the frame: after the viewer
    reports page [z] of the selected [pdf] entry, the location reads
    [#<encoded path>?page=<z>], and a page mounted afresh at that
    location renders the frame at [/<path>#page=<z>]. *)
Theorem pdf_page_link_reaches_frame (root entry : TocEntry) (s : Session)
    (z : Z) (prefersDark : bool) (classes : gset string) :
  entry ∈ flatten root →
  NoDup (path <$> flatten root) →
  path entry ≠ EmptyString →
  valid_utf8 (path entry) = true →
  type entry = "pdf" →
  selectedEntry (page s) = Some entry →
  (1 ≤ z ≤ MAX_SAFE_INTEGER)%Z →
  let link := hash (handleScrollChange (Num z) s) in
  let reopened := page (onMount root prefersDark (initial link classes)) in
  link = "#" +:+ encodeURIComponent (path entry) +:+ "?page="
         +:+ number_to_string (Num z)
  ∧ render (selectedEntry reopened) (scrollPosition reopened)
    = Frame ("/" +:+ path entry +:+ "#page=" +:+ number_to_string (Num z)).
Proof.
  intros Hin Hnd Hne Hvalid Hpdf Hsel Hz link reopened.
  assert (Hlink : link = updateHash (Some entry) (path entry) (Some (Num z))).
  { unfold link, handleScrollChange. rewrite Hsel. reflexivity. }
  split.
  - rewrite Hlink, updateHash_position by lia.
    rewrite Hpdf. reflexivity.
  - assert (Hpage : reopened
                    = MkPageState (Some root) (Some entry)
                        (getParentPaths (path entry)) (Some (Num z))).
    { unfold reopened, onMount, initial.
      cbn [hash page selectedEntry expandedPaths scrollPosition].
      rewrite Hlink.
      rewrite (handleHashChange_link (MkPageState (Some root) None ∅ None)
                 root entry (Some entry) (Some (Num z))
                 eq_refl Hin Hnd Hne Hvalid).
      + reflexivity.
      + exists z. split; [reflexivity|lia]. }
    rewrite Hpage. cbn [selectedEntry scrollPosition]. unfold render.
    assert (Hz0 : z ≠ 0%Z) by lia.
    rewrite (proj2 (getViewerType_pdf (type entry)) Hpdf).
    unfold fileUrl. rewrite (proj2 (getViewerType_pdf (type entry)) Hpdf). simpl.
    destruct (Z.eqb_spec z 0) as [?|_]; [contradiction|]. cbn [negb].
    by rewrite append_assoc.
Qed.

Lemma pdf_page_link_reaches_frame_witness :
  let s := selectDocument Sample.doc_pdf (initial EmptyString ∅) in
  let link := hash (handleScrollChange (Num 12) s) in
  let reopened := page (onMount Sample.full_tree false (initial link ∅)) in
  link = "#documents%2FA%2FB%2Fdoc.pdf?page=12"
  ∧ render (selectedEntry reopened) (scrollPosition reopened)
    = Frame "/documents/A/B/doc.pdf#page=12".
Proof.
  assert (Hz : (1 ≤ 12 ≤ MAX_SAFE_INTEGER)%Z) by (unfold MAX_SAFE_INTEGER; lia).
  exact (pdf_page_link_reaches_frame Sample.full_tree Sample.doc_pdf
           (selectDocument Sample.doc_pdf (initial EmptyString ∅)) 12 false ∅
           sample_doc_pdf_listed sample_paths_unique ltac:(discriminate)
           eq_refl eq_refl eq_refl Hz).
Defined.

End Viewer.

(** ** Keys, buttons and zoom of the PDF viewer *)

Section Controls.

Import Js PdfViewer PdfControls.

Lemma zoomIn_in_range (c : Controls) :
  scale_in_range c → scale_in_range (zoomIn c).
Proof.
  intros (Hlo & Hhi & k & Hk). unfold scale_in_range, zoomIn. simpl.
  destruct (Q.min_spec (scale c + (1 # 4)) 3) as [[Hlt Hm]|[Hle Hm]].
  - split; [rewrite Hm; lra|]. split; [rewrite Hm; lra|]. exists (k + 1)%Z.
    rewrite Hm, Hk. unfold Qeq. simpl. lia.
  - split; [rewrite Hm; lra|]. split; [rewrite Hm; lra|]. exists 12%Z.
    rewrite Hm. reflexivity.
Qed.

Lemma zoomOut_in_range (c : Controls) :
  scale_in_range c → scale_in_range (zoomOut c).
Proof.
  intros (Hlo & Hhi & k & Hk). unfold scale_in_range, zoomOut. simpl.
  destruct (Q.max_spec (scale c - (1 # 4)) (1 # 2)) as [[Hlt Hm]|[Hle Hm]].
  - split; [rewrite Hm; lra|]. split; [rewrite Hm; lra|]. exists 2%Z.
    rewrite Hm. reflexivity.
  - split; [rewrite Hm; lra|]. split; [rewrite Hm; lra|]. exists (k - 1)%Z.
    rewrite Hm, Hk. unfold Qeq. simpl. lia.
Qed.

Lemma handleKeydown_cases (key : string) (c : Controls) :
  handleKeydown key c = MkControls (prevPage (nav c)) (scale c)
  ∨ handleKeydown key c = MkControls (nextPage (nav c)) (scale c)
  ∨ handleKeydown key c = c.
Proof.
  unfold handleKeydown.
  destruct (_ || _); [by left|]. destruct (_ || _); [by right; left|by right; right].
Qed.

Lemma goToPage_keeps_document (pageNum : number) (st : State) :
  pdf (goToPage pageNum st) = pdf st
  ∧ totalPages (goToPage pageNum st) = totalPages st.
Proof. unfold goToPage. by destruct (_ || _). Qed.

(** X10. After a document has loaded, whatever keys are pressed and
    buttons clicked, as long as pages are requested by integer numbers:
    the current page stays an integer between 1 and the page count, the
    page count and the document are untouched, and the zoom factor stays
    a whole number of quarters between 0.5 and 3. *)
Theorem controls_stay_in_range (evs : list Event) (c : Controls) :
  page_in_range (nav c) →
  scale_in_range c →
  Forall integer_request evs →
  page_in_range (nav (run c evs))
  ∧ totalPages (nav (run c evs)) = totalPages (nav c)
  ∧ pdf (nav (run c evs)) = pdf (nav c)
  ∧ scale_in_range (run c evs).
Proof.
  intros Hpage Hscale Hevs. revert c Hpage Hscale.
  induction Hevs as [|ev evs Hev _ IH]; intros c Hpage Hscale; [done|].
  assert (Hstep : page_in_range (nav (step c ev))
                  ∧ totalPages (nav (step c ev)) = totalPages (nav c)
                  ∧ pdf (nav (step c ev)) = pdf (nav c)
                  ∧ scale_in_range (step c ev)).
  { assert (Hprev : page_in_range (prevPage (nav c))
                    ∧ totalPages (prevPage (nav c)) = totalPages (nav c)
                    ∧ pdf (prevPage (nav c)) = pdf (nav c)).
    { split; [by apply prevPage_in_range|].
      split; apply goToPage_keeps_document. }
    assert (Hnext : page_in_range (nextPage (nav c))
                    ∧ totalPages (nextPage (nav c)) = totalPages (nav c)
                    ∧ pdf (nextPage (nav c)) = pdf (nav c)).
    { split; [by apply nextPage_in_range|].
      split; apply goToPage_keeps_document. }
    destruct ev as [key|pageNum| | | |]; simpl.
    - destruct (handleKeydown_cases key c) as [-> | [-> | ->]]; simpl;
        [destruct Hprev as (? & ? & ?)|destruct Hnext as (? & ? & ?)|];
        (split; [done|]; split; [done|]; split; [done|exact Hscale]).
    - destruct Hev as [z ->].
      split; [by apply goToPage_integer|].
      split; [apply goToPage_keeps_document|].
      split; [apply goToPage_keeps_document|exact Hscale].
    - destruct Hprev as (? & ? & ?).
      split; [done|]. split; [done|]. split; [done|exact Hscale].
    - destruct Hnext as (? & ? & ?).
      split; [done|]. split; [done|]. split; [done|exact Hscale].
    - split; [exact Hpage|]. split; [reflexivity|]. split; [reflexivity|].
      by apply zoomIn_in_range.
    - split; [exact Hpage|]. split; [reflexivity|]. split; [reflexivity|].
      by apply zoomOut_in_range. }
  destruct Hstep as (H1 & H2 & H3 & H4).
  destruct (IH (step c ev) H1 H4) as (I1 & I2 & I3 & I4).
  change (run c (ev :: evs)) with (run (step c ev) evs).
  split; [exact I1|]. split; [by rewrite I2|]. split; [by rewrite I3|exact I4].
Qed.

Lemma controls_stay_in_range_witness :
  let c := MkControls (loadPdf (Num 3) (init (Num 1))) (3 # 2) in
  let evs := [Next; KeyDown "ArrowRight"; ZoomIn; GoTo (Num 7); KeyDown " ";
              Previous; ZoomOut; KeyDown "Escape"] in
  page_in_range (nav (run c evs))
  ∧ totalPages (nav (run c evs)) = Num 3
  ∧ pdf (nav (run c evs)) = true
  ∧ scale_in_range (run c evs).
Proof.
  apply (controls_stay_in_range _ (MkControls (loadPdf (Num 3) (init (Num 1))) (3 # 2))).
  - exists 1%Z, 3%Z. repeat split; (reflexivity || lia).
  - split; [|split].
    + unfold Qle. simpl. lia.
    + unfold Qle. simpl. lia.
    + exists 6%Z. reflexivity.
  - repeat constructor. by exists 7%Z.
Defined.

(** X11. Inside the range the page buttons undo each other, and at the
    ends they do nothing: from page [p] of [n], next then previous
    returns to [p] when [p < n], previous then next when [1 < p]; next
    on the last page and previous on the first leave the state as it
    is. *)
Theorem page_buttons_inverse (st : State) (p n : Z) :
  pdf st = true →
  currentPage st = Num p →
  totalPages st = Num n →
  (1 ≤ p ≤ n)%Z →
  ((p < n)%Z → currentPage (nextPage st) = Num (p + 1)
               ∧ prevPage (nextPage st) = st)
  ∧ ((1 < p)%Z → currentPage (prevPage st) = Num (p - 1)
                 ∧ nextPage (prevPage st) = st)
  ∧ (p = n → nextPage st = st)
  ∧ (p = 1%Z → prevPage st = st).
Proof.
  intros Hpdf Hp Hn Hr.
  destruct st as [d cp tp]. simpl in *. subst d cp tp.
  unfold nextPage, prevPage, goToPage, gt, lt. simpl.
  repeat split.
  - destruct (Z.ltb_spec (p + 1) 1); [lia|].
    destruct (Z.ltb_spec n (p + 1)); [lia|]. reflexivity.
  - destruct (Z.ltb_spec (p + 1) 1); [lia|].
    destruct (Z.ltb_spec n (p + 1)); [lia|]. simpl.
    destruct (Z.ltb_spec (p + 1 - 1) 1); [lia|].
    destruct (Z.ltb_spec n (p + 1 - 1)); [lia|]. simpl.
    f_equal. f_equal. lia.
  - destruct (Z.ltb_spec (p - 1) 1); [lia|].
    destruct (Z.ltb_spec n (p - 1)); [lia|]. reflexivity.
  - destruct (Z.ltb_spec (p - 1) 1); [lia|].
    destruct (Z.ltb_spec n (p - 1)); [lia|]. simpl.
    destruct (Z.ltb_spec (p - 1 + 1) 1); [lia|].
    destruct (Z.ltb_spec n (p - 1 + 1)); [lia|]. simpl.
    f_equal. f_equal. lia.
  - intros ->. destruct (Z.ltb_spec (n + 1) 1); [reflexivity|].
    destruct (Z.ltb_spec n (n + 1)); [reflexivity|lia].
  - intros ->. destruct (Z.ltb_spec (1 - 1) 1); [reflexivity|lia].
Qed.

Lemma page_buttons_inverse_witness :
  let st := MkState true (Num 2) (Num 3) in
  (currentPage (nextPage st) = Num 3 ∧ prevPage (nextPage st) = st)
  ∧ (currentPage (prevPage st) = Num 1 ∧ nextPage (prevPage st) = st).
Proof.
  pose proof (page_buttons_inverse (MkState true (Num 2) (Num 3)) 2 3
                eq_refl eq_refl eq_refl ltac:(lia)) as (H1 & H2 & _).
  split; [apply H1; lia|apply H2; lia].
Defined.

(** X12. While no document is held (before [loadPdf] succeeds, or after
    it failed), no key, button or page request changes the page state,
    whatever number is requested. *)
Theorem no_document_no_navigation (evs : list Event) (c : Controls) :
  pdf (nav c) = false → nav (run c evs) = nav c.
Proof.
  revert c. induction evs as [|ev evs IH]; intros c Hpdf; [reflexivity|].
  assert (Hgo : ∀ pageNum, goToPage pageNum (nav c) = nav c).
  { intros pageNum. unfold goToPage. by rewrite Hpdf. }
  assert (Hstep : nav (step c ev) = nav c).
  { destruct ev as [key|pageNum| | | |]; simpl; try apply Hgo; try reflexivity.
    destruct (handleKeydown_cases key c) as [-> | [-> | ->]]; simpl;
      [apply Hgo|apply Hgo|reflexivity]. }
  change (run c (ev :: evs)) with (run (step c ev) evs).
  rewrite IH; [exact Hstep|]. by rewrite Hstep.
Qed.

Lemma no_document_no_navigation_witness :
  nav (run (start NaN) [Next; GoTo NaN; KeyDown "ArrowDown"; GoTo (Num 2)])
  = init NaN.
Proof.
  exact (no_document_no_navigation
           [Next; GoTo NaN; KeyDown "ArrowDown"; GoTo (Num 2)] (start NaN) eq_refl).
Defined.

(** X13. Zooming in and then out returns to the same factor unless the
    upper bound cut the step, and the other way round at the lower
    bound; at 3 zooming in, and at 0.5 zooming out, change nothing. *)
Theorem zoom_steps_inverse (c : Controls) :
  scale_in_range c →
  ((scale c <= 11 # 4)%Q → (scale (zoomOut (zoomIn c)) == scale c)%Q)
  ∧ (((3 # 4) <= scale c)%Q → (scale (zoomIn (zoomOut c)) == scale c)%Q)
  ∧ ((scale c == 3)%Q → (scale (zoomIn c) == 3)%Q)
  ∧ ((scale c == 1 # 2)%Q → (scale (zoomOut c) == 1 # 2)%Q).
Proof.
  intros (Hlo & Hhi & _). unfold zoomIn, zoomOut. simpl. repeat split.
  - intros H.
    destruct (Q.min_spec (scale c + (1 # 4)) 3) as [[? Hm]|[? Hm]];
      destruct (Q.max_spec (Qmin (scale c + (1 # 4)) 3 - (1 # 4)) (1 # 2))
        as [[? ->]|[? ->]]; rewrite Hm in *; lra.
  - intros H.
    destruct (Q.max_spec (scale c - (1 # 4)) (1 # 2)) as [[? Hm]|[? Hm]];
      destruct (Q.min_spec (Qmax (scale c - (1 # 4)) (1 # 2) + (1 # 4)) 3)
        as [[? ->]|[? ->]]; rewrite Hm in *; lra.
  - intros H.
    destruct (Q.min_spec (scale c + (1 # 4)) 3) as [[? ->]|[? ->]]; lra.
  - intros H.
    destruct (Q.max_spec (scale c - (1 # 4)) (1 # 2)) as [[? ->]|[? ->]]; lra.
Qed.

Lemma zoom_steps_inverse_witness :
  (scale (zoomOut (zoomIn (start (Num 1)))) == 3 # 2)%Q
  ∧ (scale (zoomIn (zoomOut (start (Num 1)))) == 3 # 2)%Q.
Proof.
  assert (Hr : scale_in_range (start (Num 1))).
  { split; [|split].
    - unfold Qle. simpl. lia.
    - unfold Qle. simpl. lia.
    - exists 6%Z. reflexivity. }
  pose proof (zoom_steps_inverse (start (Num 1)) Hr) as (H1 & H2 & _).
  split; [apply H1|apply H2]; unfold Qle; simpl; lia.
Defined.

End Controls.

(** ** Text extracted from RTF *)

Section Rtf.

Import Js RtfViewer.

(** Case analysis over the 256 characters. *)
Ltac for_each_character c :=
  destruct c as [[] [] [] [] [] [] [] []].

(** [Js.trim_start] drops white-space characters as [space_width]
    measures them. *)
Lemma trim_start_space_width (c : ascii) (rest : string) :
  trim_start (String c rest)
  = match space_width (String c rest) with
    | 0%nat => String c rest
    | 1%nat => trim_start rest
    | 2%nat => trim_start (slice1 rest)
    | _ => trim_start (slice1 (slice1 rest))
    end.
Proof.
  destruct rest as [|c1 [|c2 r]]; simpl;
    repeat match goal with
           | |- context [if ?b then _ else _] => destruct b
           end; reflexivity.
Qed.

Lemma plain_not (sep : ascii) (s : string) :
  plain sep = false →
  all_chars plain s = true → all_chars (is_not sep) s = true.
Proof.
  intros Hsep. apply all_chars_impl. intros c Hc.
  unfold is_not. apply negb_true_iff, Ascii.eqb_neq. intros ->. congruence.
Qed.

Lemma strip_control_words_plain (s : string) :
  all_chars (is_not "\") s = true → strip_control_words Text s = s.
Proof.
  induction s as [|c s IH]; simpl; [done|].
  unfold is_not at 1. intros [Hc Hs]%andb_prop.
  apply negb_true_iff in Hc. by rewrite Hc, (IH Hs).
Qed.

Lemma strip_braces_plain (s : string) :
  all_chars (is_not "{") s = true → all_chars (is_not "}") s = true →
  strip_braces s = s.
Proof.
  induction s as [|c s IH]; simpl; [done|].
  unfold is_not at 1 3. intros [Ho Hs]%andb_prop [Hc Hs']%andb_prop.
  apply negb_true_iff in Ho, Hc. by rewrite Ho, Hc, (IH Hs Hs').
Qed.

Lemma decode_hex_escapes_plain (s : string) :
  all_chars (is_not "\") s = true → decode_hex_escapes s = s.
Proof.
  induction s as [|c s IH]; [done|].
  cbn [all_chars]. unfold is_not at 1. intros [Hc Hs]%andb_prop.
  apply negb_true_iff in Hc.
  cbn [decode_hex_escapes]. rewrite Hc, (IH Hs). cbn [andb].
  destruct s as [|q [|h [|l r]]]; try reflexivity.
  by destruct (Uri.hex_value h), (Uri.hex_value l).
Qed.

Lemma unix_newlines_plain (s : string) :
  all_chars (λ c, negb (N_of_ascii c =? 13)%N) s = true → unix_newlines s = s.
Proof.
  induction s as [|c s IH]; [done|].
  cbn [all_chars]. intros [Hc Hs]%andb_prop.
  apply negb_true_iff in Hc.
  cbn [unix_newlines]. rewrite Hc, (IH Hs). cbn [andb].
  by destruct s.
Qed.

Lemma plain_parts (s : string) :
  all_chars plain s = true →
  all_chars (is_not "\") s = true ∧ all_chars (is_not "{") s = true
  ∧ all_chars (is_not "}") s = true
  ∧ all_chars (λ c, negb (N_of_ascii c =? 13)%N) s = true.
Proof.
  intros Hs. repeat split.
  - by apply (plain_not "\").
  - by apply (plain_not "{").
  - by apply (plain_not "}").
  - revert Hs. apply all_chars_impl. intros c Hc.
    unfold plain in Hc. by apply andb_prop in Hc as [_ ?].
Qed.

(** X14. Text without backslash, brace and carriage return comes out of
    [extractPlainText] as it went in, only trimmed. *)
Theorem extractPlainText_plain (s : string) :
  all_chars plain s = true → extractPlainText s = trim s.
Proof.
  intros Hs. destruct (plain_parts s Hs) as (Hb & Ho & Hc & Hr).
  unfold extractPlainText.
  by rewrite (strip_control_words_plain s Hb), (strip_braces_plain s Ho Hc),
    (decode_hex_escapes_plain s Hb), (unix_newlines_plain s Hr).
Qed.

Lemma extractPlainText_plain_witness :
  extractPlainText "  Study report, 19 Dec 2019  " = "Study report, 19 Dec 2019".
Proof.
  exact (extractPlainText_plain "  Study report, 19 Dec 2019  " eq_refl).
Defined.

Lemma strip_skip_done (s : string) :
  strip_control_words (Skip 0) s = strip_control_words Text s.
Proof. by destruct s. Qed.

Lemma strip_letters (w u : string) :
  all_chars is_letter w = true →
  strip_control_words Letters (w +:+ u) = strip_control_words Letters u.
Proof.
  induction w as [|c w IH]; [done|].
  cbn [all_chars]. intros [Hc Hw]%andb_prop.
  change (String c w +:+ u) with (String c (w +:+ u)).
  cbn [strip_control_words]. by rewrite Hc, (IH Hw).
Qed.

Lemma strip_digits (d u : string) :
  all_chars is_digit d = true →
  strip_control_words Digits (d +:+ u) = strip_control_words Digits u.
Proof.
  induction d as [|c d IH]; [done|].
  cbn [all_chars]. intros [Hc Hd]%andb_prop.
  change (String c d +:+ u) with (String c (d +:+ u)).
  cbn [strip_control_words]. by rewrite Hc, (IH Hd).
Qed.

Lemma strip_digits_space (d u : string) :
  all_chars is_digit d = true →
  strip_control_words Digits (d +:+ String " " u) = strip_control_words Text u.
Proof.
  intros Hd. rewrite (strip_digits d _ Hd).
  change (strip_control_words (Skip 0) u = strip_control_words Text u).
  apply strip_skip_done.
Qed.

Lemma strip_letters_hyphen (d u : string) :
  all_chars is_digit d = true →
  strip_control_words Letters (String "-" (d +:+ String " " u))
  = strip_control_words Text u.
Proof.
  intros Hd.
  change (strip_control_words Letters (String "-" (d +:+ String " " u)))
    with (strip_control_words Digits (d +:+ String " " u)).
  by apply strip_digits_space.
Qed.

Lemma strip_letters_to_digits (d u : string) :
  all_chars is_digit d = true →
  strip_control_words Letters (d +:+ String " " u)
  = strip_control_words Text u.
Proof.
  intros Hd. destruct d as [|c d].
  - change (strip_control_words (Skip 0) u = strip_control_words Text u).
    apply strip_skip_done.
  - pose proof Hd as Hall.
    cbn [all_chars] in Hd. apply andb_prop in Hd as [Hc Hd].
    assert (Hl : is_letter c = false).
    { for_each_character c; try discriminate Hc; reflexivity. }
    rewrite <- (strip_digits_space (String c d) u Hall).
    change (String c d +:+ String " " u) with (String c (d +:+ String " " u)).
    cbn [strip_control_words]. by rewrite Hl, Hc, orb_true_r.
Qed.

(** X15. A group holding one control word (letters, an optional hyphen,
    digits, then the delimiting space) followed by plain text yields the
    text, trimmed: the control word, its parameter, the delimiter and
    the braces are all removed. *)
Theorem extractPlainText_group (w d t : string) (hyphen : bool) :
  w ≠ EmptyString →
  all_chars is_letter w = true →
  all_chars is_digit d = true →
  all_chars plain t = true →
  extractPlainText
    ("{\" +:+ w +:+ (if hyphen then "-" else EmptyString) +:+ d +:+ " " +:+ t +:+ "}")
  = trim t.
Proof.
  intros Hne Hw Hd Ht.
  destruct (plain_parts t Ht) as (Hb & Ho & Hc & Hr).
  assert (Hstrip :
    strip_control_words Text
      ("{\" +:+ w +:+ (if hyphen then "-" else EmptyString) +:+ d +:+ " " +:+ t +:+ "}")
    = String "{" (t +:+ "}")).
  { destruct w as [|c w]; [by destruct Hne|].
    cbn [all_chars] in Hw. apply andb_prop in Hw as [Hcl Hw].
    change ("{\" +:+ String c w +:+ ?u)
      with (String "{" (String "\" (String c (w +:+ u)))).
    cbn [strip_control_words Ascii.eqb Bool.eqb andb starts_with_letter].
    rewrite Hcl.
    rewrite (strip_letters w _ Hw).
    assert (Htail : strip_control_words Text (t +:+ "}") = t +:+ "}").
    { apply strip_control_words_plain. by rewrite all_chars_append, Hb. }
    destruct hyphen.
    - change ("-" +:+ d +:+ " " +:+ t +:+ "}")
        with (String "-" (d +:+ String " " (t +:+ "}"))).
      rewrite (strip_letters_hyphen d _ Hd), Htail. reflexivity.
    - change (EmptyString +:+ d +:+ " " +:+ t +:+ "}")
        with (d +:+ String " " (t +:+ "}")).
      rewrite (strip_letters_to_digits d _ Hd), Htail. reflexivity. }
  unfold extractPlainText. rewrite Hstrip.
  assert (Hbraces : strip_braces (String "{" (t +:+ "}")) = t).
  { simpl. clear -Ho Hc. induction t as [|c t IH]; [reflexivity|].
    cbn [all_chars] in Ho, Hc. unfold is_not at 1 in Ho. unfold is_not at 1 in Hc.
    apply andb_prop in Ho as [Ho1 Ho], Hc as [Hc1 Hc].
    apply negb_true_iff in Ho1, Hc1.
    simpl. by rewrite Ho1, Hc1, (IH Ho Hc). }
  by rewrite Hbraces, (decode_hex_escapes_plain t Hb), (unix_newlines_plain t Hr).
Qed.

Lemma extractPlainText_group_witness :
  extractPlainText "{\li-720 Nonclinical overview}" = "Nonclinical overview".
Proof.
  exact (extractPlainText_group "li" "720" "Nonclinical overview" true
           ltac:(discriminate) eq_refl eq_refl eq_refl).
Defined.

(** X16. After [loadRtf] the spinner is gone, and the viewer shows
    nothing at all (no error, no text, no download link) exactly when
    the fetch was rejected with an empty message, or when the library
    failed on the content and no text could be extracted from it. *)
Theorem loadRtf_blank {El : Type} (fetched : Fetched)
    (rendered : string → option (list El)) (st : State El) :
  view (loadRtf fetched rendered st) ≠ Spinner
  ∧ (view (loadRtf fetched rendered st) = Blank
     ↔ fetched = Rejected (Some EmptyString)
       ∨ ∃ content, fetched = Body content ∧ rendered content = None
                    ∧ extractPlainText content = EmptyString).
Proof.
  unfold loadRtf, view.
  destruct fetched as [[[|c m]|]| |content]; simpl.
  - split; [discriminate|]. split; [auto|done].
  - split; [discriminate|]. split; [discriminate|].
    intros [[=]|(? & [=] & _)].
  - split; [discriminate|]. split; [discriminate|].
    intros [[=]|(? & [=] & _)].
  - split; [discriminate|]. split; [discriminate|].
    intros [[=]|(? & [=] & _)].
  - destruct (rendered content) as [elements|] eqn:Hr; simpl.
    + split; [discriminate|]. split; [discriminate|].
      intros [[=]|(c & [= <-] & Hn & _)]. congruence.
    + destruct (extractPlainText content) as [|c t] eqn:Hx.
      * split; [discriminate|]. split; [|done].
        intros _. right. exists content. by repeat split.
      * split; [discriminate|]. split; [discriminate|].
        intros [[=]|(c' & [= <-] & _ & Hn)]. congruence.
Qed.

Example loadRtf_blank_group :
  view (loadRtf (El := string) (Body "{\rtf1\ansi }") (λ _, None)
          (MkState None None true None))
  = Blank.
Proof. reflexivity. Qed.

End Rtf.
